(** * Pair scanner: spread statistics, signal classification and ranking

    A shallow embedding of [analyze_ticker_pairs] from [src/pair_scanner.py],
    and the properties of its specification proved or refuted on it.

    Numbers.  The program computes with float64 values.  They are modelled
    as exact real numbers extended with one not-a-number value: rounding and
    overflow are idealised away, the propagation of NaN through arithmetic
    and comparisons is kept, since the program's behaviour on short and
    constant series depends on it.

    Rounding is not neutral: on float64 a sum of two differences need not be
    the difference of the ends, the mean of equal values need not be that
    value, and a quotient by two divisors depends on their order.  The
    theorems that answer the specification are therefore stated with what
    rounding preserves (the order of numbers, signs, NaN, differences that
    are exactly zero, negation) and assert no equation that holds of exact
    sums and quotients only; the lemmas on the exact operations (the
    variance of a constant series and the like) are facts of the model,
    used where rounding does not interfere.  [Binary64] runs the part of
    the program that consists of single IEEE operations on binary64
    itself.

    Exceptions.  The loop raises [ValueError] when a ticker is paired with
    itself and has data; [Checked] and [Traced] model the run with that
    exception, [analyze_ticker_pairs] is the run that completes. *)

From Stdlib Require Floats.
From Stdlib Require Import String Reals Lra ZArith Bool Arith Lia List.
From Stdlib Require Import Permutation Sorted.
From Stdlib Require Import Ascii.
From Stdlib Require DecimalString.
Import ListNotations.
Open Scope R_scope.

(* ================================================================== *)
(** * Floating-point values: reals with NaN *)

Module Float.

Inductive float : Type :=
| NaN
| Fin (x : R).

Definition Rleb (x y : R) : bool := if Rle_dec x y then true else false.
Definition Rltb (x y : R) : bool := if Rlt_dec x y then true else false.
Definition Reqb (x y : R) : bool := if Req_dec_T x y then true else false.

Definition fadd (a b : float) : float :=
  match a, b with Fin x, Fin y => Fin (x + y) | _, _ => NaN end.

Definition fsub (a b : float) : float :=
  match a, b with Fin x, Fin y => Fin (x - y) | _, _ => NaN end.

Definition fmul (a b : float) : float :=
  match a, b with Fin x, Fin y => Fin (x * y) | _, _ => NaN end.

(** Division.  [0 / 0] is NaN.  A non-zero numerator over zero is an
    infinity in IEEE arithmetic; the program never forms one (its only
    variable divisor is guarded by [spread_std != 0], and the library
    quotients below have a zero numerator whenever the divisor is zero),
    so infinities are not part of the model. *)
Definition fdiv (a b : float) : float :=
  match a, b with
  | Fin x, Fin y => if Reqb y 0 then NaN else Fin (x / y)
  | _, _ => NaN
  end.

Definition fabs (a : float) : float :=
  match a with Fin x => Fin (Rabs x) | NaN => NaN end.

Definition fneg (a : float) : float :=
  match a with Fin x => Fin (- x) | NaN => NaN end.

(** Comparisons: every ordered comparison with NaN is false, [!=] with NaN
    is true. *)
Definition fle (a b : float) : bool :=
  match a, b with Fin x, Fin y => Rleb x y | _, _ => false end.

Definition flt (a b : float) : bool :=
  match a, b with Fin x, Fin y => Rltb x y | _, _ => false end.

Definition fgt (a b : float) : bool := flt b a.

Definition fne (a b : float) : bool :=
  match a, b with Fin x, Fin y => negb (Reqb x y) | _, _ => true end.

Definition feq (a b : float) : bool := negb (fne a b).

(** Python's built-in [min(a, b)] and [max(a, b)] on two arguments: the
    first argument is kept unless the second compares strictly below
    (respectively above) it. *)
Definition py_min (a b : float) : float := if flt b a then b else a.
Definition py_max (a b : float) : float := if fgt b a then b else a.

End Float.
Import Float.

(* ================================================================== *)
(** * Series operations of pandas and numpy

    These library functions are modelled by their documented meaning on a
    series without missing values (the frame they are applied to has been
    through [dropna]), in exact arithmetic.  The library rounds every sum
    and quotient: its mean of equal values can differ from that value in
    the last bit, and so its deviation and its correlation on a constant
    series need not be 0 and NaN as they are here. *)

Module Series.

Definition sum (l : list R) : R := fold_right Rplus 0 l.

(** [Series.max()], [Series.min()]: NaN on an empty series. *)
Definition max (l : list R) : float :=
  match l with [] => NaN | x :: r => Fin (fold_left Rmax r x) end.

Definition min (l : list R) : float :=
  match l with [] => NaN | x :: r => Fin (fold_left Rmin r x) end.

(** [Series.mean()]: the sum over the count (NaN on an empty series). *)
Definition mean (l : list R) : float :=
  fdiv (Fin (sum l)) (Fin (INR (length l))).

(** Sum of the products of the deviations of two series from [mx], [my]. *)
Definition sdev (mx my : R) (xs ys : list R) : R :=
  sum (map (fun p => (fst p - mx) * (snd p - my)) (combine xs ys)).

(** Sample variance, [ddof = 1], of a series of at least two values. *)
Definition var (l : list R) : R :=
  let m := sum l / INR (length l) in
  sdev m m l l / (INR (length l) - 1).

(** [Series.std()]: the sample standard deviation; with fewer than two
    values the divisor [n - ddof] is not positive and the result is NaN. *)
Definition std (l : list R) : float :=
  if (length l <? 2)%nat then NaN else Fin (sqrt (var l)).

(** [Series.corr(other)], Pearson's coefficient, computed as
    [numpy.corrcoef] does: the covariance divided by each standard
    deviation in turn, then clipped to [-1, 1].  When a standard deviation
    is zero, so is the covariance, and the quotient is NaN. *)
Definition clip (a : float) : float :=
  match a with Fin r => Fin (Rmax (-1) (Rmin r 1)) | NaN => NaN end.

Definition cov (xs ys : list R) : R :=
  let mx := sum xs / INR (length xs) in
  let my := sum ys / INR (length ys) in
  sdev mx my xs ys / (INR (length xs) - 1).

Definition corr (xs ys : list R) : float :=
  match xs with
  | [] => NaN
  | _ :: _ =>
      clip (fdiv (fdiv (Fin (cov xs ys)) (Fin (sqrt (var xs))))
                 (Fin (sqrt (var ys))))
  end.

End Series.

(* ================================================================== *)
(** * Weekly series and their alignment *)

(** A weekly series: the values of ["Adj Close"] after [resample("W").last()],
    indexed by the ordinal of the week, in increasing order of date.  A week
    without observations holds NaN. *)
Definition wseries : Type := list (Z * float).

(** An aligned frame after [dropna]: one row per date, two finite columns. *)
Definition row : Type := (Z * (R * R))%type.
Definition frame : Type := list row.

Fixpoint lookup (d : Z) (s : wseries) : float :=
  match s with
  | [] => NaN
  | (d', v) :: r => if (d =? d')%Z then v else lookup d r
  end.

(** [pd.concat([s1, s2], axis=1)] followed by [dropna]: the outer join on
    the dates fills the missing side with NaN, and [dropna] removes every
    row holding a NaN, so the rows left are the dates at which both series
    hold a value, in chronological order. *)
Fixpoint align (s1 s2 : wseries) : frame :=
  match s1 with
  | [] => []
  | (d, v1) :: r =>
      match v1, lookup d s2 with
      | Fin x, Fin y => (d, (x, y)) :: align r s2
      | _, _ => align r s2
      end
  end.

Definition column1 (aligned : frame) : list R := map (fun r => fst (snd r)) aligned.
Definition column2 (aligned : frame) : list R := map (fun r => snd (snd r)) aligned.

(** The same frame with its two columns exchanged. *)
Definition swap_columns (aligned : frame) : frame :=
  map (fun r => (fst r, (snd (snd r), fst (snd r)))) aligned.

(* ================================================================== *)
(** * The statistics of one pair (lines 82-121 of the source) *)

(** [spread = aligned[ticker1] - aligned[ticker2]]. *)
Definition spread (aligned : frame) : list R :=
  map (fun r => fst (snd r) - snd (snd r)) aligned.

Definition highest (aligned : frame) : float := Series.max (spread aligned).
Definition lowest (aligned : frame) : float := Series.min (spread aligned).

(** [spread_df["Close"].iloc[-1]].  The frame is not empty where the
    program evaluates this, so the default of [last] is never returned. *)
Definition current (aligned : frame) : float := Fin (last (spread aligned) 0).

(** [series1.corr(series2) if len(series1) > 1 else np.nan]. *)
Definition correlation (aligned : frame) : float :=
  if (1 <? length (column1 aligned))%nat
  then Series.corr (column1 aligned) (column2 aligned)
  else NaN.

Definition spread_mean (aligned : frame) : float := Series.mean (spread aligned).
Definition spread_std (aligned : frame) : float := Series.std (spread aligned).

(** [(current - spread_mean) / spread_std if spread_std != 0 else 0.0]. *)
Definition z_score (aligned : frame) : float :=
  if fne (spread_std aligned) (Fin 0)
  then fdiv (fsub (current aligned) (spread_mean aligned)) (spread_std aligned)
  else Fin 0.

(** [p_reverse = 1 - abs(z_score) / 3]. *)
Definition p_reverse (aligned : frame) : float :=
  fsub (Fin 1) (fdiv (fabs (z_score aligned)) (Fin 3)).

(** [mean_rev_prob = float(max(min(p_reverse, 1), 0))]. *)
Definition mean_rev_prob (aligned : frame) : float :=
  py_max (py_min (p_reverse aligned) (Fin 1)) (Fin 0).

(** [abs(correlation) * 2 + mean_rev_prob * 3 + abs(z_score) * 1]. *)
Definition total_score (aligned : frame) : float :=
  fadd (fadd (fmul (fabs (correlation aligned)) (Fin 2))
             (fmul (mean_rev_prob aligned) (Fin 3)))
       (fmul (fabs (z_score aligned)) (Fin 1)).

(** [is_max = (highest - current) <= 0.05 * abs(highest)] and
    [is_min = (current - lowest) <= 0.05 * abs(lowest)]. *)
Definition is_max (aligned : frame) : bool :=
  fle (fsub (highest aligned) (current aligned))
      (fmul (Fin (5 / 100)) (fabs (highest aligned))).

Definition is_min (aligned : frame) : bool :=
  fle (fsub (current aligned) (lowest aligned))
      (fmul (Fin (5 / 100)) (fabs (lowest aligned))).

(* ================================================================== *)
(** * Signals and the state of the scan *)

(** The two values of [signal_type], ["Max level"] and ["Min level"]. *)
Inductive level : Type := MaxLevel | MinLevel.

(** One entry of [pair_scores].  The dictionary of the source also holds the
    rendered ["message"], which is text formatted from the fields below, and
    the frame ["spread"], of which the values are kept here. *)
Module Signal.
Record t : Type := make {
  total_score : float;
  ticker1 : string;
  ticker2 : string;
  signal_type : level;
  correlation : float;
  z_score : float;
  mean_reversion_prob : float;
  risk : float;
  reward : float;
  spread : list R
}.
End Signal.

(** The three accumulators of the loop. *)
Record state : Type := mkState {
  pair_scores : list Signal.t;
  long_positions : list string;
  short_positions : list string
}.

Definition initial : state := mkState [] [] [].

(** The record appended for a pair, given the branch taken. *)
Definition signal_of (ticker1 ticker2 : string) (aligned : frame)
    (ty : level) (risk reward : float) : Signal.t :=
  Signal.make (total_score aligned) ticker1 ticker2 ty
    (correlation aligned) (z_score aligned) (mean_rev_prob aligned)
    risk reward (spread aligned).

(** Lines 78-160: the body of the loop from the aligned frame on, for two
    different tickers.  (A ticker paired with itself does not get this far:
    see [Checked] below.) *)
Definition analyze_pair (ticker1 ticker2 : string) (aligned : frame)
    (st : state) : state :=
  match aligned with
  | [] => st
  | _ :: _ =>
      if is_max aligned || is_min aligned then
        if is_max aligned then
          let risk := fsub (highest aligned) (current aligned) in
          let reward := fsub (current aligned) (lowest aligned) in
          mkState
            (pair_scores st ++ [signal_of ticker1 ticker2 aligned MaxLevel risk reward])
            (long_positions st ++ [ticker2])
            (short_positions st ++ [ticker1])
        else
          let risk := fsub (current aligned) (lowest aligned) in
          let reward := fsub (highest aligned) (current aligned) in
          mkState
            (pair_scores st ++ [signal_of ticker1 ticker2 aligned MinLevel risk reward])
            (long_positions st ++ [ticker1])
            (short_positions st ++ [ticker2])
      else st
  end.

(** [itertools.combinations(tickers, 2)]: the pairs of positions [i < j],
    in lexicographic order of the positions. *)
Fixpoint combinations (tickers : list string) : list (string * string) :=
  match tickers with
  | [] => []
  | t :: rest => map (pair t) rest ++ combinations rest
  end.

(* ================================================================== *)
(** * Sorting and counting as Python does *)

Section Sorting.
Context {A : Type} (lt : A -> A -> bool).

(** A stable sort that only asks whether one element is below another, as
    [list.sort] and [sorted] do: each element is put before the first
    element of the sorted rest that is not below it.  On keys that [lt]
    orders totally every stable sort returns this list.  On keys that hold
    NaN the order depends on which comparisons a sort makes, and CPython's
    can differ from this one on three elements or more. *)
Fixpoint insert (x : A) (l : list A) : list A :=
  match l with
  | [] => [x]
  | y :: r => if lt y x then y :: insert x r else x :: y :: r
  end.

Fixpoint sorted (l : list A) : list A :=
  match l with
  | [] => []
  | x :: r => insert x (sorted r)
  end.

(** [reverse=True]: the list is reversed, sorted, and reversed again, which
    keeps elements of equal key in their original order. *)
Definition sorted_reverse (l : list A) : list A := rev (sorted (rev l)).

End Sorting.

(** [collections.Counter(iterable)]: a dictionary from element to number of
    occurrences, in order of first occurrence. *)
Fixpoint count_one (k : string) (c : list (string * nat)) : list (string * nat) :=
  match c with
  | [] => [(k, 1%nat)]
  | (k', n) :: r =>
      if String.eqb k k' then (k', S n) :: r else (k', n) :: count_one k r
  end.

Definition Counter (l : list string) : list (string * nat) :=
  fold_left (fun c k => count_one k c) l [].

(** The order of [key=lambda x: (-x[1], x[0])]: larger count first, then
    the smaller ticker. *)
Definition tally_lt (a b : string * nat) : bool :=
  (snd b <? snd a)%nat || ((snd a =? snd b)%nat && String.ltb (fst a) (fst b)).

Definition score_lt (a b : Signal.t) : bool :=
  flt (Signal.total_score a) (Signal.total_score b).

(* ================================================================== *)
(** * The scan *)

(** What [analyze_ticker_pairs] returns: ["pair_signals"], ["longs"] and
    ["shorts"].  (["position_summary_text"] and the report file are text
    rendered from these three.) *)
Record result : Type := mkResult {
  pair_signals : list Signal.t;
  longs : list (string * nat);
  shorts : list (string * nat)
}.

Section Scan.

(** The data source.  [fetch_ticker_data] returns [None] for a ticker
    without data or on an error; it is taken to answer the same for the
    same ticker throughout a run.  [weekly] stands for
    [data["Adj Close"].resample("W").last()]. *)
Variable DataFrame : Type.
Variable date : Type.
Variable fetch_ticker_data : string -> date -> date -> option DataFrame.
Variable weekly : DataFrame -> wseries.
Variables start_date end_date : date.

(** Lines 60-76: the aligned frame of a pair, when both tickers have data. *)
Definition aligned_of (ticker1 ticker2 : string) : option frame :=
  match fetch_ticker_data ticker1 start_date end_date,
        fetch_ticker_data ticker2 start_date end_date with
  | Some data1, Some data2 => Some (align (weekly data1) (weekly data2))
  | _, _ => None
  end.

Definition step (st : state) (p : string * string) : state :=
  match aligned_of (fst p) (snd p) with
  | Some aligned => analyze_pair (fst p) (snd p) aligned st
  | None => st
  end.

(** The state after the loop over all combinations, when it completes. *)
Definition scan (tickers : list string) : state :=
  fold_left step (combinations tickers) initial.

(** Lines 162-171 and the returned dictionary. *)
Definition analyze_ticker_pairs (tickers : list string) : result :=
  let st := scan tickers in
  mkResult
    (sorted_reverse score_lt (pair_scores st))
    (sorted tally_lt (Counter (long_positions st)))
    (sorted tally_lt (Counter (short_positions st))).

End Scan.

(* ================================================================== *)
(** * The run with its exception

    When [ticker1] and [ticker2] are the same ticker, the two columns of
    [aligned] carry the same label (line 72); [aligned[label]] is then a
    frame of two columns and so is [spread], and [pd.DataFrame] at line 84
    raises [ValueError].  The check of [aligned.empty] comes first, so this
    happens only when the ticker has data for at least one week.  Nothing
    catches the exception: the run ends there, nothing is returned and the
    report is not written. *)

Module Checked.
Section Run.
Variable DataFrame : Type.
Variable date : Type.
Variable fetch_ticker_data : string -> date -> date -> option DataFrame.
Variable weekly : DataFrame -> wseries.
Variables start_date end_date : date.

(** The pairs at which line 84 raises. *)
Definition raises (p : string * string) : bool :=
  match aligned_of DataFrame date fetch_ticker_data weekly start_date end_date
          (fst p) (snd p) with
  | Some (_ :: _) => String.eqb (fst p) (snd p)
  | _ => false
  end.

(** The body of the loop; [None] once [ValueError] has been raised. *)
Definition step (acc : option state) (p : string * string) : option state :=
  match acc with
  | None => None
  | Some st =>
      match aligned_of DataFrame date fetch_ticker_data weekly start_date end_date
              (fst p) (snd p) with
      | None => Some st
      | Some [] => Some st
      | Some (r0 :: rest) =>
          if String.eqb (fst p) (snd p) then None
          else Some (analyze_pair (fst p) (snd p) (r0 :: rest) st)
      end
  end.

Definition scan (tickers : list string) : option state :=
  fold_left step (combinations tickers) (Some initial).

(** Lines 162-171 and the returned dictionary, from the accumulators. *)
Definition result_of (st : state) : result :=
  mkResult
    (sorted_reverse score_lt (pair_scores st))
    (sorted tally_lt (Counter (long_positions st)))
    (sorted tally_lt (Counter (short_positions st))).

(** What the call returns, [None] when it raises. *)
Definition analyze_ticker_pairs (tickers : list string) : option result :=
  option_map result_of (scan tickers).

End Run.
End Checked.

(* ================================================================== *)
(** * The notions of the specification *)

(** [clamp(x, lo, hi)] as the specification writes it. *)
Definition clamp (x lo hi : R) : R := Rmax lo (Rmin x hi).

(** What a recorded signal says about the range of its spread: risk and
    reward are numbers, and each lies between zero and
    [highest - lowest]. *)
Definition within_range (s : Signal.t) : Prop :=
  exists h l r w,
    Series.max (Signal.spread s) = Fin h /\
    Series.min (Signal.spread s) = Fin l /\
    Signal.risk s = Fin r /\ Signal.reward s = Fin w /\
    0 <= r <= h - l /\ 0 <= w <= h - l.

(** The signals of score [v]. *)
Definition has_score (v : R) (s : Signal.t) : bool :=
  feq (Signal.total_score s) (Fin v).

(** Descending order of the score: a later signal scores at most as much
    as an earlier one. *)
Definition score_ge (a b : Signal.t) : Prop :=
  fle (Signal.total_score b) (Signal.total_score a) = true.

Definition scored (s : Signal.t) : Prop := Signal.total_score s <> NaN.

(** A weekly series is dated when its dates increase strictly. *)
Definition dated {V : Type} (s : list (Z * V)) : Prop :=
  StronglySorted Z.lt (map fst s).

(** Ascending order for a comparison [lt]: the later element is not below
    the earlier one. *)
Definition not_below {A : Type} (lt : A -> A -> bool) (x y : A) : Prop :=
  lt y x = false.

(* ================================================================== *)
(** * Worked inputs *)

Module Example.

(** A data source with four tickers; the dates are week numbers.  ["P"] has
    a single week, which it shares with ["Q"] only. *)
Definition market (t : string) (_ _ : unit) : option wseries :=
  if String.eqb t "P" then Some [(0%Z, Fin 10)]
  else if String.eqb t "Q" then Some [(0%Z, Fin 9); (1%Z, Fin 3); (2%Z, Fin 5)]
  else if String.eqb t "S" then Some [(1%Z, Fin 1); (2%Z, Fin 2)]
  else if String.eqb t "T" then Some [(1%Z, Fin 2); (2%Z, Fin 7)]
  else None.

Definition loop (tickers : list string) : state :=
  scan wseries unit market (fun d => d) tt tt tickers.

Definition run (tickers : list string) : result :=
  analyze_ticker_pairs wseries unit market (fun d => d) tt tt tickers.

(** The aligned frames of the pairs of [market]. *)
Definition frame_PQ : frame := [(0%Z, (10, 9))].
Definition frame_QS : frame := [(1%Z, (3, 1)); (2%Z, (5, 2))].
Definition frame_QT : frame := [(1%Z, (3, 2)); (2%Z, (5, 7))].
Definition frame_ST : frame := [(1%Z, (1, 2)); (2%Z, (2, 7))].

(** Two more frames: a rising spread against a constant second instrument,
    and two instruments with the same prices. *)
Definition frame_climb : frame := [(0%Z, (2, 1)); (1%Z, (4, 1))].
Definition frame_same : frame := [(0%Z, (3, 3)); (1%Z, (4, 4)); (2%Z, (6, 6))].

Definition max_signal (t1 t2 : string) (a : frame) : Signal.t :=
  signal_of t1 t2 a MaxLevel
    (fsub (highest a) (current a)) (fsub (current a) (lowest a)).

Definition min_signal (t1 t2 : string) (a : frame) : Signal.t :=
  signal_of t1 t2 a MinLevel
    (fsub (current a) (lowest a)) (fsub (highest a) (current a)).

End Example.

(* ================================================================== *)
(** * Recommendations, tallies and the records of one pair *)

(** The instrument a signal says to buy and the one it says to sell
    (lines 128-129 and 134-135). *)
Definition long_of (s : Signal.t) : string :=
  match Signal.signal_type s with
  | MaxLevel => Signal.ticker2 s
  | MinLevel => Signal.ticker1 s
  end.

Definition short_of (s : Signal.t) : string :=
  match Signal.signal_type s with
  | MaxLevel => Signal.ticker1 s
  | MinLevel => Signal.ticker2 s
  end.

(** [counter[t]]: the count a tally holds for [t], 0 when [t] is absent. *)
Fixpoint count_of (t : string) (c : list (string * nat)) : nat :=
  match c with
  | [] => 0%nat
  | (k, n) :: r => if String.eqb t k then n else count_of t r
  end.

(** The order of the two sorted tallies: the larger count first, and among
    equal counts the smaller ticker first. *)
Definition tally_before (a b : string * nat) : Prop :=
  (snd b < snd a)%nat \/ (snd a = snd b /\ String.ltb (fst a) (fst b) = true).

(** A series is constant when all its values are equal. *)
Definition constant (l : list R) : Prop := forall x y, In x l -> In y l -> x = y.

(** The thresholds as they bear on one record. *)
Definition within_threshold (s : Signal.t) : Prop :=
  exists h l r w,
    Series.max (Signal.spread s) = Fin h /\
    Series.min (Signal.spread s) = Fin l /\
    Signal.risk s = Fin r /\ Signal.reward s = Fin w /\
    match Signal.signal_type s with
    | MaxLevel => r <= 5 / 100 * Rabs h
    | MinLevel => r <= 5 / 100 * Rabs l /\ 5 / 100 * Rabs h < w /\ 0 < w
    end.

(** A frame whose two columns agree row by row. *)
Definition same_columns (a : frame) : Prop :=
  Forall (fun r : row => fst (snd r) = snd (snd r)) a.

Section PairRecords.
Variable DataFrame : Type.
Variable date : Type.
Variable fetch_ticker_data : string -> date -> date -> option DataFrame.
Variable weekly : DataFrame -> wseries.
Variables start_date end_date : date.

(** What the body of the loop records for one pair of tickers, starting
    from empty accumulators: no signal or one. *)
Definition emitted (p : string * string) : list Signal.t :=
  match aligned_of DataFrame date fetch_ticker_data weekly start_date end_date
          (fst p) (snd p) with
  | Some a => pair_scores (analyze_pair (fst p) (snd p) a initial)
  | None => []
  end.

End PairRecords.

(* ================================================================== *)
(** * The data source, and what a run downloads and prints *)

(** What a run does besides computing: it calls [yf.download] and it
    prints lines. *)
Inductive effect : Type :=
| Download (ticker : string)
| Print (line : string).

Definition downloads (trace : list effect) : list string :=
  flat_map (fun e => match e with Download t => [t] | Print _ => [] end) trace.

Definition printed (trace : list effect) : list string :=
  flat_map (fun e => match e with Download _ => [] | Print l => [l] end) trace.

Module Traced.
Section Effects.
Variable DataFrame : Type.
Variable date : Type.
Variable exn : Type.

(** [yf.download(ticker, start, end, ...)]: a frame, or an exception
    raised. *)
Variable yf_download : string -> date -> date -> exn + DataFrame.
(** [data.empty] and the rendering [{e}] of an exception. *)
Variable empty : DataFrame -> bool.
Variable str : exn -> string.
Variable weekly : DataFrame -> wseries.
Variables start_date end_date : date.

(** Lines 11-34.  The result, and the call and the line printed on the
    way. *)
Definition fetch_ticker_data (ticker : string) (start_date end_date : date)
    : option DataFrame * list effect :=
  match yf_download ticker start_date end_date with
  | inr data =>
      if empty data
      then (None, [Download ticker;
                   Print ("[WARN] No data found for " ++ ticker ++ ".")%string])
      else (Some data, [Download ticker])
  | inl e =>
      (None, [Download ticker;
              Print ("[ERROR] Error fetching data for " ++ ticker ++ ": "
                     ++ str e)%string])
  end.

(** The result alone. *)
Definition fetched (ticker : string) (start_date end_date : date)
    : option DataFrame :=
  fst (fetch_ticker_data ticker start_date end_date).

(** Lines 60-160: the body of the loop with its calls and prints.  Both
    tickers are fetched before either result is looked at.  The state is
    [None] once line 84 has raised [ValueError]: the run is over, and
    nothing more is downloaded or printed. *)
Definition step (acc : option state * list effect) (p : string * string)
    : option state * list effect :=
  match fst acc with
  | None => acc
  | Some st =>
      let (data1, out1) := fetch_ticker_data (fst p) start_date end_date in
      let (data2, out2) := fetch_ticker_data (snd p) start_date end_date in
      match data1, data2 with
      | Some d1, Some d2 =>
          match align (weekly d1) (weekly d2) with
          | [] =>
              (Some st,
               snd acc ++ out1 ++ out2 ++
               [Print ("[INFO] No overlapping weekly data for " ++ fst p ++ " & "
                       ++ snd p ++ ".")%string])
          | r0 :: rest =>
              if String.eqb (fst p) (snd p)
              then (None, snd acc ++ out1 ++ out2)
              else (Some (analyze_pair (fst p) (snd p) (r0 :: rest) st),
                    snd acc ++ out1 ++ out2)
          end
      | _, _ => (Some st, snd acc ++ out1 ++ out2)
      end
  end.

Definition scan (tickers : list string) : option state * list effect :=
  fold_left step (combinations tickers) (Some initial, []).

(** The calls and prints of one pair on its own. *)
Definition pair_effects (p : string * string) : list effect :=
  snd (step (Some initial, []) p).

End Effects.
End Traced.

(* ================================================================== *)
(** * The position summary and the report (lines 173-201) *)

Definition nl : string := String "010"%char EmptyString.

(** ["=" * 60]. *)
Definition rule : string := String.concat "" (repeat "="%string 60).

(** [f"{c}"] for a count: its decimal digits. *)
Definition decimal (n : nat) : string :=
  DecimalString.NilZero.string_of_uint (Nat.to_uint n).

(** [f"{t} ({c})\n"]. *)
Definition tally_line (e : string * nat) : string :=
  (fst e ++ " (" ++ decimal (snd e) ++ ")" ++ nl)%string.

(** The lines of one tally, or ["None\n"] when it is empty. *)
Definition tally_lines (l : list (string * nat)) : string :=
  match l with
  | [] => ("None" ++ nl)%string
  | _ :: _ => String.concat "" (map tally_line l)
  end.

Definition position_summary (longs shorts : list (string * nat)) : string :=
  (nl ++ rule ++ nl ++ "POSITION SUMMARY" ++ nl ++ rule ++ nl ++ nl
   ++ "LONGS:" ++ nl ++ tally_lines longs
   ++ nl ++ "SHORTS:" ++ nl ++ tally_lines shorts)%string.

(** What is written to [output_file]. *)
Definition report (sorted_messages : list string) (summary : string) : string :=
  match sorted_messages with
  | [] => ("No pair signals detected." ++ nl)%string
  | _ :: _ =>
      ("PAIR TRADING SIGNALS (SORTED BY SCORE)" ++ nl ++ rule ++ nl ++ nl
       ++ String.concat "" sorted_messages ++ summary)%string
  end.

Section Report.
(** The ["message"] of a signal (lines 137-144): text formatted from the
    tickers, the signal type and the numbers of the record.  The formatting
    of floats is not modelled; the properties below hold for any. *)
Variable message : Signal.t -> string.

Definition sorted_messages (r : result) : list string :=
  map message (pair_signals r).

Definition position_summary_text (r : result) : string :=
  position_summary (longs r) (shorts r).

Definition written (r : result) : string :=
  report (sorted_messages r) (position_summary_text r).

End Report.

(* ================================================================== *)
(** * Reading the tickers (lines 212-213)

    [tickers = [t.strip().upper() for t in tickers_input.split(",")
                if t.strip()]].
    A string is its list of characters; the functions below are Python's on
    ASCII text (on other characters [str.strip] and [str.upper] follow
    Unicode tables that are not modelled). *)

Module Input.

Definition ascii_only (s : string) : Prop :=
  Forall (fun c => (nat_of_ascii c < 128)%nat) (list_ascii_of_string s).

(** The ASCII characters [str.isspace] accepts: 9-13 and 28-32. *)
Definition is_space (c : ascii) : bool :=
  let n := nat_of_ascii c in
  (((9 <=? n) && (n <=? 13)) || ((28 <=? n) && (n <=? 32)))%nat.

Definition is_lower (c : ascii) : bool :=
  let n := nat_of_ascii c in ((97 <=? n) && (n <=? 122))%nat.

Definition upper_char (c : ascii) : ascii :=
  if is_lower c then ascii_of_nat (nat_of_ascii c - 32) else c.

Fixpoint upper (s : string) : string :=
  match s with
  | EmptyString => EmptyString
  | String c r => String (upper_char c) (upper r)
  end.

Fixpoint lstrip (s : string) : string :=
  match s with
  | EmptyString => EmptyString
  | String c r => if is_space c then lstrip r else s
  end.

Fixpoint rstrip (s : string) : string :=
  match s with
  | EmptyString => EmptyString
  | String c r =>
      match rstrip r with
      | EmptyString => if is_space c then EmptyString else String c EmptyString
      | String c' r' => String c (String c' r')
      end
  end.

Definition strip (s : string) : string := rstrip (lstrip s).

(** [s.split(sep)] for a one-character separator: the pieces between the
    separators, at least one piece.  (The result of the recursive call is
    never empty.) *)
Fixpoint split (sep : ascii) (s : string) : list string :=
  match s with
  | EmptyString => [EmptyString]
  | String c r =>
      if Ascii.eqb c sep then EmptyString :: split sep r
      else match split sep r with
           | h :: t => String c h :: t
           | [] => [String c EmptyString]
           end
  end.

Definition tickers_of (tickers_input : string) : list string :=
  map (fun t => upper (strip t))
      (filter (fun t => negb (String.eqb (strip t) EmptyString))
              (split ","%char tickers_input)).

(** No white space in front. *)
Definition head_ok (s : string) : Prop :=
  match s with
  | EmptyString => True
  | String c _ => is_space c = false
  end.

(** A ticker as the reading leaves it: not empty, without a comma, without
    white space at either end, without a lower-case letter. *)
Definition clean (t : string) : Prop :=
  t <> EmptyString /\ ~ In ","%char (list_ascii_of_string t) /\
  strip t = t /\ upper t = t.

End Input.

(* ================================================================== *)
(** * Lines 83-135 on binary64

    The spread, its extremes, the two thresholds, the risk and the reward
    are made of subtractions, comparisons, [abs] and one product by the
    double nearest to 0.05: single IEEE operations, which the primitive
    floats of the kernel compute bit for bit.  ([max], [min] and [iloc[-1]]
    do no arithmetic.) *)

Module Binary64.
Import PrimFloat.
Local Open Scope float_scope.

(** The two columns of an aligned frame after [dropna]. *)
Definition frame : Type := list (float * float).

Definition spread (aligned : frame) : list float :=
  map (fun r => fst r - snd r) aligned.

Definition max (l : list float) : float :=
  match l with
  | [] => nan
  | x :: r => fold_left (fun m y => if m <? y then y else m) r x
  end.

Definition min (l : list float) : float :=
  match l with
  | [] => nan
  | x :: r => fold_left (fun m y => if y <? m then y else m) r x
  end.

Definition highest (aligned : frame) : float := max (spread aligned).
Definition lowest (aligned : frame) : float := min (spread aligned).
Definition current (aligned : frame) : float := last (spread aligned) nan.

(** The literal [0.05]. *)
Definition threshold : float := 0x1.999999999999ap-5.

Definition is_max (aligned : frame) : bool :=
  highest aligned - current aligned <=? threshold * abs (highest aligned).

Definition is_min (aligned : frame) : bool :=
  current aligned - lowest aligned <=? threshold * abs (lowest aligned).

(** Lines 123-135: the signal type, the risk and the reward recorded for a
    non-empty frame, if any. *)
Definition recorded (aligned : frame) : option (level * (float * float)) :=
  if is_max aligned || is_min aligned then
    if is_max aligned then
      Some (MaxLevel, (highest aligned - current aligned,
                       current aligned - lowest aligned))
    else
      Some (MinLevel, (current aligned - lowest aligned,
                       highest aligned - current aligned))
  else None.

(** Three weeks of prices with two decimals:
    91.79, 44.99, 111.04 against 5.65, 59.34, 27.73. *)
Definition prices : frame :=
  [(0x1.6f28f5c28f5c3p+6, 0x1.699999999999ap+2);
   (0x1.67eb851eb851fp+5, 0x1.dab851eb851ecp+5);
   (0x1.bc28f5c28f5c3p+6, 0x1.bbae147ae147bp+4)].

End Binary64.

(* ================================================================== *)
(** * A data source that can fail *)

Module ExampleIO.

(** ["E"] has an empty frame; any ticker other than P, Q, S, E makes the
    download raise. *)
Definition download (t : string) (_ _ : unit) : string + wseries :=
  if String.eqb t "P" then inr [(0%Z, Fin 10)]
  else if String.eqb t "Q" then inr [(0%Z, Fin 9); (1%Z, Fin 3); (2%Z, Fin 5)]
  else if String.eqb t "S" then inr [(1%Z, Fin 1); (2%Z, Fin 2)]
  else if String.eqb t "E" then inr []
  else inl "unknown ticker"%string.

Definition empty (data : wseries) : bool :=
  match data with [] => true | _ :: _ => false end.

Definition run (tickers : list string) : result :=
  analyze_ticker_pairs wseries unit
    (Traced.fetched wseries unit string download empty (fun e => e))
    (fun d => d) tt tt tickers.

End ExampleIO.

(* ================================================================== *)
(** * Facts about the comparisons of floats *)

Lemma Rleb_true x y : Rleb x y = true <-> x <= y.
Proof. unfold Rleb; destruct (Rle_dec x y); split; intros; auto; discriminate. Qed.

Lemma Rleb_false x y : Rleb x y = false <-> y < x.
Proof.
  unfold Rleb; destruct (Rle_dec x y); split; intros; auto; try discriminate; lra.
Qed.

Lemma Rltb_true x y : Rltb x y = true <-> x < y.
Proof. unfold Rltb; destruct (Rlt_dec x y); split; intros; auto; discriminate. Qed.

Lemma Rltb_false x y : Rltb x y = false <-> y <= x.
Proof.
  unfold Rltb; destruct (Rlt_dec x y); split; intros; auto; try discriminate; lra.
Qed.

Lemma Reqb_true x y : Reqb x y = true <-> x = y.
Proof. unfold Reqb; destruct (Req_dec_T x y); split; intros; auto; discriminate. Qed.

Lemma Reqb_false x y : Reqb x y = false <-> x <> y.
Proof.
  unfold Reqb; destruct (Req_dec_T x y); split; intros; auto; try discriminate.
  contradiction.
Qed.

Lemma Reqb_refl x : Reqb x x = true.
Proof. apply Reqb_true; reflexivity. Qed.

Lemma fdiv_fin x y : y <> 0 -> fdiv (Fin x) (Fin y) = Fin (x / y).
Proof. intros H; simpl; apply Reqb_false in H; rewrite H; reflexivity. Qed.

(* ================================================================== *)
(** * Facts about the series operations *)

Lemma Rmax_cases a b : (a <= b /\ Rmax a b = b) \/ (b < a /\ Rmax a b = a).
Proof. unfold Rmax; destruct (Rle_dec a b); [left|right]; split; auto; lra. Qed.

Lemma Rmin_cases a b : (a <= b /\ Rmin a b = a) \/ (b < a /\ Rmin a b = b).
Proof. unfold Rmin; destruct (Rle_dec a b); [left|right]; split; auto; lra. Qed.

Lemma Rabs_cases a : (0 <= a /\ Rabs a = a) \/ (a < 0 /\ Rabs a = - a).
Proof. unfold Rabs; destruct (Rcase_abs a); [right|left]; split; auto; lra. Qed.

(** Case analysis on every maximum, minimum and absolute value in sight,
    then linear arithmetic. *)
Ltac split_real c :=
  let H := fresh in
  destruct c as [[? H]|[? H]]; rewrite H in *; clear H.

Ltac real_cases :=
  repeat match goal with
         | |- context [Rmax ?a ?b] => split_real (Rmax_cases a b)
         | |- context [Rmin ?a ?b] => split_real (Rmin_cases a b)
         | |- context [Rabs ?a] => split_real (Rabs_cases a)
         | _ : context [Rmax ?a ?b] |- _ => split_real (Rmax_cases a b)
         | _ : context [Rmin ?a ?b] |- _ => split_real (Rmin_cases a b)
         | _ : context [Rabs ?a] |- _ => split_real (Rabs_cases a)
         end;
  try lra.

Lemma fold_max_init (r : list R) (x : R) : x <= fold_left Rmax r x.
Proof.
  revert x; induction r as [|y r IH]; intros x; simpl; [lra|].
  eapply Rle_trans; [apply (Rmax_l x y)|apply IH].
Qed.

Lemma fold_max_elem (r : list R) (x y : R) :
  In y r -> y <= fold_left Rmax r x.
Proof.
  revert x; induction r as [|z r IH]; intros x Hin; simpl in *; [tauto|].
  destruct Hin as [->|Hin].
  - eapply Rle_trans; [apply (Rmax_r x y)|apply fold_max_init].
  - apply IH; assumption.
Qed.

Lemma fold_min_init (r : list R) (x : R) : fold_left Rmin r x <= x.
Proof.
  revert x; induction r as [|y r IH]; intros x; simpl; [lra|].
  eapply Rle_trans; [apply IH|apply Rmin_l].
Qed.

Lemma fold_min_elem (r : list R) (x y : R) :
  In y r -> fold_left Rmin r x <= y.
Proof.
  revert x; induction r as [|z r IH]; intros x Hin; simpl in *; [tauto|].
  destruct Hin as [->|Hin].
  - eapply Rle_trans; [apply fold_min_init|apply Rmin_r].
  - apply IH; assumption.
Qed.

Lemma fold_max_opp (r : list R) (x : R) :
  fold_left Rmax (map Ropp r) (- x) = - fold_left Rmin r x.
Proof.
  revert x; induction r as [|y r IH]; intros x; simpl; [reflexivity|].
  rewrite <- Ropp_Rmin; apply IH.
Qed.

Lemma fold_min_opp (r : list R) (x : R) :
  fold_left Rmin (map Ropp r) (- x) = - fold_left Rmax r x.
Proof.
  revert x; induction r as [|y r IH]; intros x; simpl; [reflexivity|].
  rewrite <- Ropp_Rmax; apply IH.
Qed.

Lemma last_in_cons (x : R) (r : list R) (d : R) :
  last (x :: r) d = x \/ In (last (x :: r) d) r.
Proof.
  revert x; induction r as [|y r IH]; intros x; [left; reflexivity|].
  right. change (last (x :: y :: r) d) with (last (y :: r) d).
  destruct (IH y) as [->|H]; [left; reflexivity|right; assumption].
Qed.

(** The three statistics of a non-empty spread are finite and ordered:
    [lowest <= current <= highest]. *)
Lemma extremes (r0 : row) (rest : frame) :
  exists h l c,
    highest (r0 :: rest) = Fin h /\ lowest (r0 :: rest) = Fin l /\
    current (r0 :: rest) = Fin c /\ l <= c <= h.
Proof.
  unfold highest, lowest, current, spread.
  cbn [map Series.max Series.min].
  set (x := fst (snd r0) - snd (snd r0)).
  set (r := map (fun r1 : row => fst (snd r1) - snd (snd r1)) rest).
  exists (fold_left Rmax r x), (fold_left Rmin r x), (last (x :: r) 0).
  repeat split.
  - destruct (last_in_cons x r 0) as [->|H];
      [apply fold_min_init|apply fold_min_elem; exact H].
  - destruct (last_in_cons x r 0) as [->|H];
      [apply fold_max_init|apply fold_max_elem; exact H].
Qed.

Lemma fle_fin x y : fle (Fin x) (Fin y) = true <-> x <= y.
Proof. apply Rleb_true. Qed.

Lemma fle_fin_false x y : fle (Fin x) (Fin y) = false <-> y < x.
Proof. apply Rleb_false. Qed.

(** When the current value is the highest one, [is_max] holds. *)
Lemma is_max_at_top (r0 : row) (rest : frame) :
  current (r0 :: rest) = highest (r0 :: rest) -> is_max (r0 :: rest) = true.
Proof.
  intros Heq. unfold is_max. rewrite <- Heq. unfold current. simpl fsub. simpl fabs.
  simpl fmul. apply fle_fin. real_cases.
Qed.

(* ================================================================== *)
(** * The classifier *)

(** What [analyze_pair] does in each of its three branches. *)
Lemma analyze_pair_max t1 t2 (r0 : row) (rest : frame) st :
  is_max (r0 :: rest) = true ->
  analyze_pair t1 t2 (r0 :: rest) st =
  mkState
    (pair_scores st ++
       [signal_of t1 t2 (r0 :: rest) MaxLevel
          (fsub (highest (r0 :: rest)) (current (r0 :: rest)))
          (fsub (current (r0 :: rest)) (lowest (r0 :: rest)))])
    (long_positions st ++ [t2]) (short_positions st ++ [t1]).
Proof. intros H; unfold analyze_pair; rewrite H; reflexivity. Qed.

Lemma analyze_pair_min t1 t2 (r0 : row) (rest : frame) st :
  is_max (r0 :: rest) = false -> is_min (r0 :: rest) = true ->
  analyze_pair t1 t2 (r0 :: rest) st =
  mkState
    (pair_scores st ++
       [signal_of t1 t2 (r0 :: rest) MinLevel
          (fsub (current (r0 :: rest)) (lowest (r0 :: rest)))
          (fsub (highest (r0 :: rest)) (current (r0 :: rest)))])
    (long_positions st ++ [t1]) (short_positions st ++ [t2]).
Proof. intros H1 H2; unfold analyze_pair; rewrite H1, H2; reflexivity. Qed.

Lemma analyze_pair_none t1 t2 (r0 : row) (rest : frame) st :
  is_max (r0 :: rest) = false -> is_min (r0 :: rest) = false ->
  analyze_pair t1 t2 (r0 :: rest) st = st.
Proof. intros H1 H2; unfold analyze_pair; rewrite H1, H2; reflexivity. Qed.

(** C3.  For a pair with a non-empty aligned frame: when [is_max] holds the
    classifier records one signal of type Max level, long the second ticker
    and short the first, with [risk = highest - current] and
    [reward = current - lowest]; when only [is_min] holds it records one
    signal of type Min level, long the first ticker and short the second,
    with [risk = current - lowest] and [reward = highest - current]; when
    neither holds the state is left as it was. *)
Theorem classifier_cases (t1 t2 : string) (r0 : row) (rest : frame) (st : state) :
  let aligned := r0 :: rest in
  let st' := analyze_pair t1 t2 aligned st in
  (is_max aligned = true ->
   exists s, pair_scores st' = pair_scores st ++ [s] /\
     Signal.ticker1 s = t1 /\ Signal.ticker2 s = t2 /\
     Signal.signal_type s = MaxLevel /\
     Signal.risk s = fsub (highest aligned) (current aligned) /\
     Signal.reward s = fsub (current aligned) (lowest aligned) /\
     long_positions st' = long_positions st ++ [t2] /\
     short_positions st' = short_positions st ++ [t1]) /\
  (is_max aligned = false -> is_min aligned = true ->
   exists s, pair_scores st' = pair_scores st ++ [s] /\
     Signal.ticker1 s = t1 /\ Signal.ticker2 s = t2 /\
     Signal.signal_type s = MinLevel /\
     Signal.risk s = fsub (current aligned) (lowest aligned) /\
     Signal.reward s = fsub (highest aligned) (current aligned) /\
     long_positions st' = long_positions st ++ [t1] /\
     short_positions st' = short_positions st ++ [t2]) /\
  (is_max aligned = false -> is_min aligned = false -> st' = st).
Proof.
  intros aligned st'; subst aligned st'.
  split; [|split].
  - intros H. rewrite (analyze_pair_max _ _ _ _ _ H).
    eexists; repeat split.
  - intros H1 H2. rewrite (analyze_pair_min _ _ _ _ _ H1 H2).
    eexists; repeat split.
  - intros H1 H2. apply analyze_pair_none; assumption.
Qed.

(** C4.  When [is_max] and [is_min] hold together, the one signal recorded
    for the pair is of type Max level. *)
Theorem max_has_priority (t1 t2 : string) (r0 : row) (rest : frame) (st : state) :
  is_max (r0 :: rest) = true -> is_min (r0 :: rest) = true ->
  exists s,
    pair_scores (analyze_pair t1 t2 (r0 :: rest) st) = pair_scores st ++ [s] /\
    Signal.signal_type s = MaxLevel /\
    long_positions (analyze_pair t1 t2 (r0 :: rest) st) = long_positions st ++ [t2] /\
    short_positions (analyze_pair t1 t2 (r0 :: rest) st) = short_positions st ++ [t1].
Proof.
  intros H _. rewrite (analyze_pair_max _ _ _ _ _ H).
  eexists; repeat split.
Qed.

(** C10.  When the current spread equals its highest value, a signal of
    type Max level with [risk = 0] is recorded; a frame of exactly one row
    always yields a Max level signal with [risk = 0] and [reward = 0]. *)
Theorem current_at_highest (t1 t2 : string) (r0 : row) (rest : frame) (st : state) :
  (current (r0 :: rest) = highest (r0 :: rest) ->
   exists s,
     pair_scores (analyze_pair t1 t2 (r0 :: rest) st) = pair_scores st ++ [s] /\
     Signal.signal_type s = MaxLevel /\ Signal.risk s = Fin 0) /\
  (exists s,
     pair_scores (analyze_pair t1 t2 [r0] st) = pair_scores st ++ [s] /\
     Signal.signal_type s = MaxLevel /\
     Signal.risk s = Fin 0 /\ Signal.reward s = Fin 0).
Proof.
  split.
  - intros Heq. rewrite (analyze_pair_max _ _ _ _ _ (is_max_at_top _ _ Heq)).
    eexists; repeat split. cbn [signal_of Signal.risk].
    rewrite <- Heq. unfold current. simpl. f_equal. lra.
  - assert (Heq : current [r0] = highest [r0]) by reflexivity.
    rewrite (analyze_pair_max _ _ _ _ _ (is_max_at_top _ _ Heq)).
    eexists; repeat split; cbn [signal_of Signal.risk Signal.reward];
      unfold current, highest, lowest; simpl; f_equal; lra.
Qed.

(* ================================================================== *)
(** * The z-score and the mean-reversion probability *)

Lemma fdiv_nan_r (a : float) : fdiv a NaN = NaN.
Proof. destruct a; reflexivity. Qed.

Lemma spread_length (aligned : frame) : length (spread aligned) = length aligned.
Proof. apply length_map. Qed.

Lemma INR_length_pos {A} (l : list A) : (1 <= length l)%nat -> INR (length l) <> 0.
Proof. intros H; apply not_0_INR; lia. Qed.

Lemma mean_fin (l : list R) :
  (1 <= length l)%nat -> Series.mean l = Fin (Series.sum l / INR (length l)).
Proof. intros H; apply fdiv_fin, INR_length_pos, H. Qed.

Lemma std_fin (l : list R) :
  (2 <= length l)%nat -> Series.std l = Fin (sqrt (Series.var l)).
Proof.
  intros H; unfold Series.std.
  destruct (Nat.ltb_spec (length l) 2); [lia|reflexivity].
Qed.

Lemma std_short (l : list R) : (length l < 2)%nat -> Series.std l = NaN.
Proof.
  intros H; unfold Series.std.
  destruct (Nat.ltb_spec (length l) 2); [reflexivity|lia].
Qed.

(** With at least two rows the z-score is a number. *)
Lemma z_score_fin (aligned : frame) :
  (2 <= length aligned)%nat -> exists z, z_score aligned = Fin z.
Proof.
  intros H. unfold z_score, spread_std, spread_mean, current.
  rewrite std_fin by (rewrite spread_length; exact H).
  rewrite mean_fin by (rewrite spread_length; lia).
  cbn [fne fsub fdiv].
  destruct (Reqb (sqrt (Series.var (spread aligned))) 0); cbn [negb]; eauto.
Qed.

(** With a single row the standard deviation is NaN, the guard
    [spread_std != 0] passes, and the quotient is NaN. *)
Lemma z_score_single (r0 : row) : z_score [r0] = NaN.
Proof. unfold z_score, spread_std. cbn [spread map]. rewrite std_short by (simpl; lia).
  cbn [fne]. apply fdiv_nan_r.
Qed.

Lemma mean_rev_prob_single (r0 : row) : mean_rev_prob [r0] = NaN.
Proof. unfold mean_rev_prob, p_reverse. rewrite z_score_single. reflexivity. Qed.

Lemma sum_zeros (l : list R) :
  Forall (fun x => x = 0) l -> Series.sum l = 0.
Proof.
  induction 1 as [|x l Hx _ IH]; [reflexivity|].
  change (Series.sum (x :: l)) with (x + Series.sum l).
  rewrite IH, Hx. lra.
Qed.

Lemma sdev_zeros (l : list R) :
  Forall (fun x => x = 0) l -> Series.sdev 0 0 l l = 0.
Proof.
  unfold Series.sdev.
  induction 1 as [|x l Hx _ IH]; [reflexivity|].
  cbn [combine map fst snd]. change (Series.sum (?a :: ?r)) with (a + Series.sum r).
  rewrite IH, Hx. lra.
Qed.

(** A series of zeros has mean 0 and deviation 0: no sum or quotient in it
    rounds. *)
Lemma std_zeros (l : list R) :
  (2 <= length l)%nat -> Forall (fun x => x = 0) l -> Series.std l = Fin 0.
Proof.
  intros Hlen Hall. rewrite std_fin by exact Hlen. f_equal.
  unfold Series.var. rewrite (sum_zeros l Hall).
  replace (0 / INR (length l)) with 0 by (unfold Rdiv; ring).
  rewrite (sdev_zeros l Hall).
  unfold Rdiv. rewrite Rmult_0_l. apply sqrt_0.
Qed.

Lemma same_columns_spread (a : frame) :
  same_columns a -> Forall (fun x => x = 0) (spread a).
Proof.
  unfold same_columns, spread. intros H. rewrite Forall_map.
  eapply Forall_impl; [|exact H]. intros r Hr. cbv beta in *. rewrite Hr. lra.
Qed.

(** C2 (as amended).  When the standard deviation of the spread is zero the
    guard gives a z-score of exactly 0.  This is the case for two
    instruments with the same prices over at least two weeks: their spread
    is zero throughout, and so are its mean and its deviation. *)
Theorem zero_std_guard (aligned : frame) :
  (spread_std aligned = Fin 0 -> z_score aligned = Fin 0) /\
  ((2 <= length aligned)%nat -> same_columns aligned ->
   spread_std aligned = Fin 0 /\ z_score aligned = Fin 0).
Proof.
  assert (Hguard : spread_std aligned = Fin 0 -> z_score aligned = Fin 0).
  { intros Hstd. unfold z_score. rewrite Hstd. cbn [fne].
    rewrite Reqb_refl. reflexivity. }
  split; [exact Hguard|].
  intros Hlen Hsame.
  assert (Hstd : spread_std aligned = Fin 0).
  { unfold spread_std. apply std_zeros; [rewrite spread_length; exact Hlen|].
    apply same_columns_spread, Hsame. }
  split; [exact Hstd|apply Hguard, Hstd].
Qed.

Lemma py_clamp (p : R) :
  py_max (py_min (Fin p) (Fin 1)) (Fin 0) = Fin (clamp p 0 1).
Proof.
  unfold py_max, py_min, fgt, clamp. cbn [flt].
  destruct (Rltb 1 p) eqn:E1.
  - apply Rltb_true in E1. cbn [flt].
    destruct (Rltb 1 0) eqn:E2; [apply Rltb_true in E2; lra|].
    f_equal. real_cases.
  - apply Rltb_false in E1. cbn [flt].
    destruct (Rltb p 0) eqn:E2;
      [apply Rltb_true in E2|apply Rltb_false in E2]; f_equal; real_cases.
Qed.

Lemma clamp_bounds (x : R) : 0 <= clamp x 0 1 <= 1.
Proof. unfold clamp. real_cases. Qed.

Lemma mean_rev_prob_of_z (aligned : frame) (z : R) :
  z_score aligned = Fin z ->
  mean_rev_prob aligned = Fin (clamp (1 - Rabs z / 3) 0 1).
Proof.
  intros Hz. unfold mean_rev_prob, p_reverse. rewrite Hz. cbn [fabs].
  rewrite fdiv_fin by lra. cbn [fsub]. apply py_clamp.
Qed.

(** C8 (as amended).  With at least two aligned rows the z-score is a number
    [z], and the mean-reversion probability is [clamp(1 - |z| / 3, 0, 1)],
    which lies in [[0, 1]]. *)
Theorem mean_rev_prob_clamped (aligned : frame) :
  (2 <= length aligned)%nat ->
  exists z,
    z_score aligned = Fin z /\
    mean_rev_prob aligned = Fin (clamp (1 - Rabs z / 3) 0 1) /\
    0 <= clamp (1 - Rabs z / 3) 0 1 <= 1.
Proof.
  intros Hlen. destruct (z_score_fin aligned Hlen) as [z Hz].
  exists z. split; [exact Hz|]. split.
  - apply mean_rev_prob_of_z, Hz.
  - unfold clamp.
    pose proof (Rmax_l 0 (Rmin (1 - Rabs z / 3) 1)) as Hlo.
    pose proof (Rmin_r (1 - Rabs z / 3) 1) as Hhi.
    split; [exact Hlo|]. apply Rmax_lub; [lra|exact Hhi].
Qed.

(** The score of a frame of at least two rows whose two columns both vary
    is a number. *)
Lemma correlation_fin (a : frame) :
  (2 <= length a)%nat ->
  0 < Series.var (column1 a) -> 0 < Series.var (column2 a) ->
  exists c, correlation a = Fin c.
Proof.
  intros Hlen H1 H2. unfold correlation, column1 at 1. rewrite length_map.
  destruct (_ <? _)%nat eqn:E1;
    [|apply Nat.ltb_ge in E1; exfalso; apply (Nat.lt_irrefl 1); eapply Nat.lt_le_trans; [exact Hlen|exact E1]].
  unfold Series.corr. destruct (column1 a) as [|x xs] eqn:E.
  - unfold column1 in E. destruct a; [simpl in Hlen; lia|discriminate].
  - rewrite fdiv_fin by (apply Rgt_not_eq, sqrt_lt_R0, H1).
    rewrite fdiv_fin by (apply Rgt_not_eq, sqrt_lt_R0, H2).
    eexists. reflexivity.
Qed.

Lemma total_score_scored (a : frame) :
  (2 <= length a)%nat ->
  0 < Series.var (column1 a) -> 0 < Series.var (column2 a) ->
  total_score a <> NaN.
Proof.
  intros Hlen H1 H2.
  destruct (correlation_fin a Hlen H1 H2) as [c Hc].
  destruct (z_score_fin a Hlen) as [z Hz].
  unfold total_score. rewrite Hc, (mean_rev_prob_of_z a z Hz), Hz.
  discriminate.
Qed.

(** The branches of [analyze_pair] on any frame that is not empty. *)
Lemma analyze_max t1 t2 (a : frame) st :
  a <> [] -> is_max a = true ->
  analyze_pair t1 t2 a st =
  mkState
    (pair_scores st ++
       [signal_of t1 t2 a MaxLevel
          (fsub (highest a) (current a)) (fsub (current a) (lowest a))])
    (long_positions st ++ [t2]) (short_positions st ++ [t1]).
Proof. destruct a; [congruence|]. intros _. apply analyze_pair_max. Qed.

Lemma analyze_min t1 t2 (a : frame) st :
  a <> [] -> is_max a = false -> is_min a = true ->
  analyze_pair t1 t2 a st =
  mkState
    (pair_scores st ++
       [signal_of t1 t2 a MinLevel
          (fsub (current a) (lowest a)) (fsub (highest a) (current a))])
    (long_positions st ++ [t1]) (short_positions st ++ [t2]).
Proof. destruct a; [congruence|]. intros _. apply analyze_pair_min. Qed.

(* ================================================================== *)
(** * Alignment in either order *)

Lemma dated_tail {V} (p : Z * V) (s : list (Z * V)) : dated (p :: s) -> dated s.
Proof. intros H. inversion H; assumption. Qed.

Lemma dated_head {V} (p q : Z * V) (s : list (Z * V)) :
  dated (p :: s) -> In q s -> (fst p < fst q)%Z.
Proof.
  intros H Hin. inversion H as [|? ? _ Hall]; subst.
  rewrite Forall_forall in Hall. apply Hall. apply in_map, Hin.
Qed.

Lemma lookup_in (d : Z) (v : R) (s : wseries) :
  lookup d s = Fin v -> In (d, Fin v) s.
Proof.
  induction s as [|[d' w] r IH]; cbn [lookup]; [discriminate|].
  destruct (Z.eqb_spec d d') as [->|Hne]; intros H.
  - left. rewrite H. reflexivity.
  - right. apply IH, H.
Qed.

Lemma in_lookup (d : Z) (v : float) (s : wseries) :
  dated s -> In (d, v) s -> lookup d s = v.
Proof.
  induction s as [|[d' w] r IH]; intros Hs Hin; [contradiction|].
  cbn [lookup]. destruct Hin as [Heq|Hin].
  - inversion Heq; subst. rewrite Z.eqb_refl. reflexivity.
  - pose proof (dated_head _ _ _ Hs Hin) as Hlt. cbn [fst] in Hlt.
    destruct (Z.eqb_spec d d') as [->|_]; [lia|].
    apply IH; [apply (dated_tail _ _ Hs)|exact Hin].
Qed.

Lemma align_in (s1 s2 : wseries) (d : Z) (x y : R) :
  In (d, (x, y)) (align s1 s2) <-> In (d, Fin x) s1 /\ lookup d s2 = Fin y.
Proof.
  induction s1 as [|[d' v] r IH]; cbn [align]; [simpl; tauto|].
  destruct v as [|x']; [|destruct (lookup d' s2) as [|y'] eqn:E].
  - rewrite IH. simpl. split; [tauto|]. intros [[H|H] Hy]; [discriminate|tauto].
  - rewrite IH. simpl. split; [tauto|].
    intros [[H|H] Hy]; [|tauto]. inversion H; subst. congruence.
  - simpl. rewrite IH. split.
    + intros [H|[H Hy]]; [|tauto]. inversion H; subst. auto.
    + intros [[H|H] Hy]; [|tauto]. inversion H; subst.
      left. congruence.
Qed.

Lemma align_dates (s1 s2 : wseries) (r : row) :
  In r (align s1 s2) -> exists v, In (fst r, v) s1.
Proof.
  destruct r as [d [x y]]. intros H. apply align_in in H. cbn [fst]. eexists. apply H.
Qed.

Lemma align_dated (s1 s2 : wseries) : dated s1 -> dated (align s1 s2).
Proof.
  induction s1 as [|[d v] r IH]; intros Hs; cbn [align]; [constructor|].
  pose proof (IH (dated_tail _ _ Hs)) as Hr.
  destruct v as [|x]; [exact Hr|]. destruct (lookup d s2) as [|y]; [exact Hr|].
  unfold dated. cbn [map fst]. constructor; [exact Hr|].
  rewrite Forall_forall. intros d' Hd'. apply in_map_iff in Hd' as (q & <- & Hq).
  destruct (align_dates _ _ _ Hq) as [w Hw].
  apply (dated_head _ _ _ Hs Hw).
Qed.

Lemma swap_columns_in (f : frame) (d : Z) (x y : R) :
  In (d, (y, x)) (swap_columns f) <-> In (d, (x, y)) f.
Proof.
  unfold swap_columns. rewrite in_map_iff. split.
  - intros ([d' [a b]] & H & Hin). cbn [fst snd] in H. inversion H; subst. exact Hin.
  - intros Hin. exists (d, (x, y)). split; [reflexivity|exact Hin].
Qed.

Lemma swap_columns_dated (f : frame) : dated f -> dated (swap_columns f).
Proof.
  unfold dated, swap_columns. rewrite map_map. cbn [fst].
  intros H. exact H.
Qed.

(** Two dated lists with the same elements are equal. *)
Lemma dated_ext {V} (l1 l2 : list (Z * V)) :
  dated l1 -> dated l2 -> (forall r, In r l1 <-> In r l2) -> l1 = l2.
Proof.
  revert l2. induction l1 as [|r1 t1 IH]; intros [|r2 t2] H1 H2 Hext.
  - reflexivity.
  - exfalso. apply (proj2 (Hext r2)). left. reflexivity.
  - exfalso. apply (proj1 (Hext r1)). left. reflexivity.
  - assert (Heq : r1 = r2).
    { destruct (proj1 (Hext r1) (or_introl eq_refl)) as [E|E1]; [auto|].
      destruct (proj2 (Hext r2) (or_introl eq_refl)) as [E|E2]; [auto|].
      pose proof (dated_head _ _ _ H2 E1). pose proof (dated_head _ _ _ H1 E2). lia. }
    subst r2. f_equal.
    apply IH; [apply (dated_tail _ _ H1)|apply (dated_tail _ _ H2)|].
    intros r. split; intros Hr.
    + destruct (proj1 (Hext r) (or_intror Hr)) as [E|E]; [|exact E].
      subst r. pose proof (dated_head _ _ _ H1 Hr). lia.
    + destruct (proj2 (Hext r) (or_intror Hr)) as [E|E]; [|exact E].
      subst r. pose proof (dated_head _ _ _ H2 Hr). lia.
Qed.

(** The frame of a pair taken in the other order is the frame with its
    columns exchanged. *)
Lemma align_swap (s1 s2 : wseries) :
  dated s1 -> dated s2 -> align s2 s1 = swap_columns (align s1 s2).
Proof.
  intros H1 H2. apply dated_ext.
  - apply align_dated, H2.
  - apply swap_columns_dated, align_dated, H1.
  - intros [d [y x]]. rewrite swap_columns_in, !align_in. split.
    + intros [Hin Hl]. split; [apply lookup_in, Hl|apply in_lookup; assumption].
    + intros [Hin Hl]. split; [apply lookup_in, Hl|apply in_lookup; assumption].
Qed.

(* ================================================================== *)
(** * Exchanging the two instruments of a pair *)

Lemma spread_swap (a : frame) : spread (swap_columns a) = map Ropp (spread a).
Proof.
  unfold spread, swap_columns. rewrite !map_map.
  apply map_ext. intros [d [x y]]. simpl. lra.
Qed.

Lemma max_opp (l : list R) : Series.max (map Ropp l) = fneg (Series.min l).
Proof. destruct l as [|x r]; [reflexivity|]. simpl. f_equal. apply fold_max_opp. Qed.

Lemma min_opp (l : list R) : Series.min (map Ropp l) = fneg (Series.max l).
Proof. destruct l as [|x r]; [reflexivity|]. simpl. f_equal. apply fold_min_opp. Qed.

Lemma last_opp (l : list R) : last (map Ropp l) 0 = - last l 0.
Proof.
  induction l as [|x [|y r] IH]; simpl; [lra|reflexivity|].
  exact IH.
Qed.

Lemma sum_cons (x : R) (l : list R) : Series.sum (x :: l) = x + Series.sum l.
Proof. reflexivity. Qed.

Lemma sum_opp (l : list R) : Series.sum (map Ropp l) = - Series.sum l.
Proof.
  induction l as [|x r IH]; [simpl; lra|].
  cbn [map]. rewrite !sum_cons, IH. lra.
Qed.

Lemma sdev_opp (m : R) (l : list R) :
  Series.sdev (- m) (- m) (map Ropp l) (map Ropp l) = Series.sdev m m l l.
Proof.
  unfold Series.sdev. induction l as [|x r IH]; [reflexivity|].
  cbn [map combine fst snd]. rewrite !sum_cons, IH. lra.
Qed.

Lemma var_opp (l : list R) : Series.var (map Ropp l) = Series.var l.
Proof.
  unfold Series.var. rewrite length_map, sum_opp.
  replace (- Series.sum l / INR (length l)) with (- (Series.sum l / INR (length l)))
    by (unfold Rdiv; ring).
  rewrite sdev_opp. reflexivity.
Qed.

Lemma std_opp (l : list R) : Series.std (map Ropp l) = Series.std l.
Proof. unfold Series.std. rewrite length_map, var_opp. reflexivity. Qed.

Lemma mean_opp (l : list R) : Series.mean (map Ropp l) = fneg (Series.mean l).
Proof.
  unfold Series.mean. rewrite length_map, sum_opp. cbn [fdiv].
  destruct (Reqb (INR (length l)) 0); [reflexivity|].
  cbn [fneg]. f_equal. unfold Rdiv. ring.
Qed.

Lemma z_score_swap (a : frame) : z_score (swap_columns a) = fneg (z_score a).
Proof.
  unfold z_score, spread_std, spread_mean, current.
  rewrite spread_swap, std_opp, mean_opp, last_opp.
  destruct (Series.std (spread a)) as [|s]; cbn [fne].
  - rewrite !fdiv_nan_r. reflexivity.
  - destruct (Reqb s 0) eqn:Es; cbn [negb].
    + cbn [fneg]. f_equal. lra.
    + unfold Series.mean. cbn [fdiv].
      destruct (Reqb (INR (length (spread a))) 0) eqn:En; [reflexivity|].
      cbn [fneg fsub fdiv]. rewrite Es. cbn [fneg]. f_equal.
      apply Reqb_false in Es, En. field. split; assumption.
Qed.

Lemma fabs_fneg (a : float) : fabs (fneg a) = fabs a.
Proof. destruct a; [reflexivity|]. simpl. f_equal. apply Rabs_Ropp. Qed.

Lemma mean_rev_prob_swap (a : frame) :
  mean_rev_prob (swap_columns a) = mean_rev_prob a.
Proof. unfold mean_rev_prob, p_reverse. rewrite z_score_swap, fabs_fneg. reflexivity. Qed.

Lemma highest_swap (a : frame) : highest (swap_columns a) = fneg (lowest a).
Proof. unfold highest, lowest. rewrite spread_swap. apply max_opp. Qed.

Lemma lowest_swap (a : frame) : lowest (swap_columns a) = fneg (highest a).
Proof. unfold highest, lowest. rewrite spread_swap. apply min_opp. Qed.

Lemma current_swap (a : frame) : current (swap_columns a) = fneg (current a).
Proof. unfold current. rewrite spread_swap, last_opp. reflexivity. Qed.

Lemma is_max_swap (a : frame) : is_max (swap_columns a) = is_min a.
Proof.
  unfold is_max, is_min. rewrite highest_swap, current_swap. unfold current.
  destruct (lowest a) as [|l]; [reflexivity|]. cbn [fneg fsub fabs fmul fle].
  f_equal; [lra|]. rewrite Rabs_Ropp. reflexivity.
Qed.

Lemma is_min_swap (a : frame) : is_min (swap_columns a) = is_max a.
Proof.
  unfold is_max, is_min. rewrite lowest_swap, current_swap. unfold current.
  destruct (highest a) as [|h]; [reflexivity|]. cbn [fneg fsub fabs fmul fle].
  f_equal; [lra|]. rewrite Rabs_Ropp. reflexivity.
Qed.

Lemma risk_mirror (a b : float) : fsub (fneg a) (fneg b) = fsub b a.
Proof. destruct a, b; try reflexivity. simpl. f_equal. lra. Qed.

Lemma swap_max t1 t2 (r0 : row) (rest : frame) st :
  is_max (swap_columns (r0 :: rest)) = true ->
  analyze_pair t1 t2 (swap_columns (r0 :: rest)) st =
  mkState
    (pair_scores st ++
       [signal_of t1 t2 (swap_columns (r0 :: rest)) MaxLevel
          (fsub (highest (swap_columns (r0 :: rest))) (current (swap_columns (r0 :: rest))))
          (fsub (current (swap_columns (r0 :: rest))) (lowest (swap_columns (r0 :: rest))))])
    (long_positions st ++ [t2]) (short_positions st ++ [t1]).
Proof. apply analyze_pair_max. Qed.

Lemma swap_min t1 t2 (r0 : row) (rest : frame) st :
  is_max (swap_columns (r0 :: rest)) = false ->
  is_min (swap_columns (r0 :: rest)) = true ->
  analyze_pair t1 t2 (swap_columns (r0 :: rest)) st =
  mkState
    (pair_scores st ++
       [signal_of t1 t2 (swap_columns (r0 :: rest)) MinLevel
          (fsub (current (swap_columns (r0 :: rest))) (lowest (swap_columns (r0 :: rest))))
          (fsub (highest (swap_columns (r0 :: rest))) (current (swap_columns (r0 :: rest))))])
    (long_positions st ++ [t1]) (short_positions st ++ [t2]).
Proof. apply analyze_pair_min. Qed.

Lemma swap_none t1 t2 (r0 : row) (rest : frame) st :
  is_max (swap_columns (r0 :: rest)) = false ->
  is_min (swap_columns (r0 :: rest)) = false ->
  analyze_pair t1 t2 (swap_columns (r0 :: rest)) st = st.
Proof. apply analyze_pair_none. Qed.

(** C6 (as amended).  Exchanging the two instruments of a pair negates the
    spread.  The z-score changes sign, its magnitude and the mean-reversion
    probability are unchanged; [is_max] and [is_min] trade places.  When
    exactly one of them holds, the two orders give signals of opposite types
    with the same risk, the same reward and the same long and short
    instruments; when both hold, the two orders both give Max level, with
    risk and reward exchanged and long and short exchanged; when neither
    holds, neither order gives a signal.  (Nothing is said of the
    correlation and of the score: the two orders divide the covariance by
    the two deviations in the other order, which float64 rounds
    differently.) *)
Theorem swap_symmetry (t1 t2 : string) (r0 : row) (rest : frame) :
  let a := r0 :: rest in
  let b := swap_columns a in
  let sa := analyze_pair t1 t2 a initial in
  let sb := analyze_pair t2 t1 b initial in
  z_score b = fneg (z_score a) /\
  fabs (z_score b) = fabs (z_score a) /\
  mean_rev_prob b = mean_rev_prob a /\
  is_max b = is_min a /\ is_min b = is_max a /\
  (is_max a <> is_min a ->
   exists s s', pair_scores sa = [s] /\ pair_scores sb = [s'] /\
     Signal.signal_type s <> Signal.signal_type s' /\
     Signal.risk s' = Signal.risk s /\ Signal.reward s' = Signal.reward s /\
     long_positions sb = long_positions sa /\
     short_positions sb = short_positions sa) /\
  (is_max a = true -> is_min a = true ->
   exists s s', pair_scores sa = [s] /\ pair_scores sb = [s'] /\
     Signal.signal_type s = MaxLevel /\ Signal.signal_type s' = MaxLevel /\
     Signal.risk s' = Signal.reward s /\ Signal.reward s' = Signal.risk s /\
     long_positions sb = short_positions sa /\
     short_positions sb = long_positions sa) /\
  (is_max a = false -> is_min a = false ->
   pair_scores sa = [] /\ pair_scores sb = []).
Proof.
  intros a b sa sb. subst sa sb b a.
  assert (Hmax := is_max_swap (r0 :: rest)).
  assert (Hmin := is_min_swap (r0 :: rest)).
  repeat match goal with |- _ /\ _ => split end.
  - apply z_score_swap.
  - rewrite z_score_swap. apply fabs_fneg.
  - apply mean_rev_prob_swap.
  - exact Hmax.
  - exact Hmin.
  - intros Hne.
    destruct (is_max (r0 :: rest)) eqn:Ea; destruct (is_min (r0 :: rest)) eqn:Ei;
      try congruence.
    + rewrite (analyze_pair_max _ _ _ _ _ Ea), (swap_min _ _ _ _ _ Hmax Hmin).
      do 2 eexists.
      repeat split; cbn [signal_of Signal.signal_type Signal.risk Signal.reward];
        try discriminate;
        rewrite current_swap, ?lowest_swap, ?highest_swap; apply risk_mirror.
    + rewrite (analyze_pair_min _ _ _ _ _ Ea Ei), (swap_max _ _ _ _ _ Hmax).
      do 2 eexists.
      repeat split; cbn [signal_of Signal.signal_type Signal.risk Signal.reward];
        try discriminate;
        rewrite current_swap, ?lowest_swap, ?highest_swap; apply risk_mirror.
  - intros Ea Ei. rewrite Ea in Hmin. rewrite Ei in Hmax.
    rewrite (analyze_pair_max _ _ _ _ _ Ea), (swap_max _ _ _ _ _ Hmax).
    do 2 eexists.
    repeat split; cbn [signal_of Signal.signal_type Signal.risk Signal.reward];
      rewrite current_swap, ?lowest_swap, ?highest_swap; apply risk_mirror.
  - intros Ea Ei. rewrite Ea in Hmin. rewrite Ei in Hmax.
    rewrite (analyze_pair_none _ _ _ _ _ Ea Ei), (swap_none _ _ _ _ _ Hmax Hmin).
    split; reflexivity.
Qed.

(* ================================================================== *)
(** * Facts about the sort *)

Section SortFacts.
Context {A : Type} (lt : A -> A -> bool).

Lemma insert_perm (x : A) (l : list A) : Permutation (insert lt x l) (x :: l).
Proof.
  induction l as [|y r IH]; simpl; [reflexivity|].
  destruct (lt y x); [|reflexivity].
  rewrite IH. apply perm_swap.
Qed.

Lemma sorted_perm (l : list A) : Permutation (sorted lt l) l.
Proof.
  induction l as [|x r IH]; simpl; [reflexivity|].
  rewrite insert_perm. constructor. exact IH.
Qed.

Lemma sorted_reverse_perm (l : list A) : Permutation (sorted_reverse lt l) l.
Proof.
  unfold sorted_reverse.
  rewrite <- Permutation_rev, sorted_perm, <- Permutation_rev. reflexivity.
Qed.

(** Stability.  A class [p] of elements that no element of the class is
    below keeps its order: inserting an element of the class puts it ahead
    of the members already there. *)
Section Stable.
Variable p : A -> bool.
Hypothesis p_class : forall x y, p x = true -> lt y x = true -> p y = false.

Lemma insert_filter (x : A) (l : list A) :
  filter p (insert lt x l) = filter p (x :: l).
Proof.
  induction l as [|y r IH]; [reflexivity|].
  cbn [insert]. destruct (lt y x) eqn:E; [|reflexivity].
  cbn [filter] in *. rewrite IH.
  destruct (p x) eqn:Px; [|reflexivity].
  rewrite (p_class x y Px E). reflexivity.
Qed.

Lemma sorted_filter (l : list A) : filter p (sorted lt l) = filter p l.
Proof.
  induction l as [|x r IH]; [reflexivity|].
  cbn [sorted]. rewrite insert_filter. cbn [filter]. rewrite IH. reflexivity.
Qed.

Lemma sorted_reverse_filter (l : list A) :
  filter p (sorted_reverse lt l) = filter p l.
Proof.
  unfold sorted_reverse.
  rewrite filter_rev, sorted_filter, filter_rev, rev_involutive. reflexivity.
Qed.
End Stable.

(** Order.  On elements that [lt] orders totally ([ok]) the result is in
    order: no element is below an earlier one. *)
Section Ordered.
Variable ok : A -> Prop.
Hypothesis lt_asym : forall x y, ok x -> ok y -> lt x y = true -> lt y x = false.
Hypothesis lt_negtrans : forall x y z, ok x -> ok y -> ok z ->
  lt y x = false -> lt z y = false -> lt z x = false.

Lemma insert_ok (x : A) (l : list A) :
  ok x -> Forall ok l -> Forall ok (insert lt x l).
Proof.
  intros Hx Hl. eapply Permutation_Forall; [symmetry; apply insert_perm|].
  constructor; assumption.
Qed.

Lemma sorted_ok (l : list A) : Forall ok l -> Forall ok (sorted lt l).
Proof.
  intros Hl. eapply Permutation_Forall; [symmetry; apply sorted_perm|exact Hl].
Qed.

Lemma insert_ordered (x : A) (l : list A) :
  ok x -> Forall ok l ->
  StronglySorted (not_below lt) l -> StronglySorted (not_below lt) (insert lt x l).
Proof.
  intros Hx Hok Hs. induction Hs as [|y r Hs IH Hall]; cbn [insert].
  - repeat constructor.
  - inversion Hok as [|? ? Hy Hr]; subst.
    destruct (lt y x) eqn:E.
    + constructor; [apply IH; assumption|].
      eapply Permutation_Forall; [symmetry; apply insert_perm|].
      constructor; [|exact Hall].
      unfold not_below. apply lt_asym; assumption.
    + constructor; [constructor; assumption|].
      constructor; [exact E|].
      rewrite Forall_forall in *. intros z Hz.
      unfold not_below in *.
      apply (lt_negtrans x y z); auto.
Qed.

Lemma sorted_ordered (l : list A) :
  Forall ok l -> StronglySorted (not_below lt) (sorted lt l).
Proof.
  induction l as [|x r IH]; intros Hok; cbn [sorted]; [constructor|].
  inversion Hok; subst.
  apply insert_ordered; auto using sorted_ok.
Qed.
End Ordered.

End SortFacts.

Lemma StronglySorted_snoc {A} (R : A -> A -> Prop) (l : list A) (x : A) :
  StronglySorted R l -> Forall (fun y => R y x) l -> StronglySorted R (l ++ [x]).
Proof.
  induction 1 as [|y r Hs IH Hall]; intros Hx; simpl.
  - repeat constructor.
  - inversion Hx; subst. constructor; [apply IH; assumption|].
    apply Forall_app; split; [exact Hall|]. repeat constructor. assumption.
Qed.

Lemma StronglySorted_rev {A} (R : A -> A -> Prop) (l : list A) :
  StronglySorted R l -> StronglySorted (fun x y => R y x) (rev l).
Proof.
  induction 1 as [|y r Hs IH Hall]; simpl; [constructor|].
  apply StronglySorted_snoc; [exact IH|].
  apply Forall_rev. exact Hall.
Qed.

(* ================================================================== *)
(** * Facts about the counter *)

Lemma count_one_sum (k : string) (c : list (string * nat)) :
  list_sum (map snd (count_one k c)) = S (list_sum (map snd c)).
Proof.
  unfold list_sum.
  induction c as [|[k' n] r IH]; [reflexivity|].
  cbn [count_one]. destruct (String.eqb k k'); cbn [map snd fold_right].
  - reflexivity.
  - rewrite IH. lia.
Qed.

Lemma Counter_sum_from (l : list string) (c : list (string * nat)) :
  list_sum (map snd (fold_left (fun c k => count_one k c) l c)) =
  (list_sum (map snd c) + length l)%nat.
Proof.
  revert c; induction l as [|k r IH]; intros c; cbn [fold_left length]; [lia|].
  rewrite IH, count_one_sum. lia.
Qed.

Lemma Counter_sum (l : list string) :
  list_sum (map snd (Counter l)) = length l.
Proof. unfold Counter. rewrite Counter_sum_from. reflexivity. Qed.

Lemma tally_sum (l : list string) :
  list_sum (map snd (sorted tally_lt (Counter l))) = length l.
Proof.
  rewrite (Permutation_list_sum
             (Permutation_map snd (sorted_perm tally_lt (Counter l)))).
  apply Counter_sum.
Qed.

(* ================================================================== *)
(** * Facts about the scan *)

Lemma analyze_pair_cases t1 t2 (a : frame) st :
  analyze_pair t1 t2 a st = st \/
  exists ty risk reward long short,
    analyze_pair t1 t2 a st =
    mkState (pair_scores st ++ [signal_of t1 t2 a ty risk reward])
            (long_positions st ++ [long]) (short_positions st ++ [short]) /\
    a <> [] /\
    ((ty = MaxLevel /\ risk = fsub (highest a) (current a) /\
      reward = fsub (current a) (lowest a)) \/
     (ty = MinLevel /\ risk = fsub (current a) (lowest a) /\
      reward = fsub (highest a) (current a))).
Proof.
  destruct a as [|r0 rest]; [left; reflexivity|].
  destruct (is_max (r0 :: rest)) eqn:Ea.
  - right. rewrite (analyze_pair_max _ _ _ _ _ Ea).
    do 5 eexists. split; [reflexivity|]. split; [discriminate|]. left. auto.
  - destruct (is_min (r0 :: rest)) eqn:Ei.
    + right. rewrite (analyze_pair_min _ _ _ _ _ Ea Ei).
      do 5 eexists. split; [reflexivity|]. split; [discriminate|]. right. auto.
    + left. apply analyze_pair_none; assumption.
Qed.

Lemma signal_within_range t1 t2 (a : frame) ty risk reward :
  a <> [] ->
  (ty = MaxLevel /\ risk = fsub (highest a) (current a) /\
   reward = fsub (current a) (lowest a)) \/
  (ty = MinLevel /\ risk = fsub (current a) (lowest a) /\
   reward = fsub (highest a) (current a)) ->
  within_range (signal_of t1 t2 a ty risk reward).
Proof.
  intros Hne Hcase. destruct a as [|r0 rest]; [congruence|].
  destruct (extremes r0 rest) as (h & l & c & Hh & Hl & Hc & Hlc).
  unfold within_range. cbn [signal_of Signal.spread Signal.risk Signal.reward].
  fold (highest (r0 :: rest)). fold (lowest (r0 :: rest)).
  destruct Hcase as [(_ & -> & ->)|(_ & -> & ->)]; rewrite Hh, Hl, Hc; cbn [fsub].
  - exists h, l, (h - c), (c - l). repeat split; lra.
  - exists h, l, (c - l), (h - c). repeat split; lra.
Qed.

Lemma combinations_distinct (l : list string) :
  NoDup l -> Forall (fun p => fst p <> snd p) (combinations l).
Proof.
  induction 1 as [|t rest Hnot _ IH]; [constructor|].
  cbn [combinations]. apply Forall_app. split; [|exact IH].
  rewrite Forall_map, Forall_forall. intros u Hu. cbn [fst snd].
  intros ->. contradiction.
Qed.

Section ScanFacts.
Variable DataFrame : Type.
Variable date : Type.
Variable fetch_ticker_data : string -> date -> date -> option DataFrame.
Variable weekly : DataFrame -> wseries.
Variables start_date end_date : date.

Local Abbreviation aligned_of' :=
  (aligned_of DataFrame date fetch_ticker_data weekly start_date end_date).
Local Abbreviation step' :=
  (step DataFrame date fetch_ticker_data weekly start_date end_date).
Local Abbreviation scan' :=
  (scan DataFrame date fetch_ticker_data weekly start_date end_date).
Local Abbreviation run :=
  (analyze_ticker_pairs DataFrame date fetch_ticker_data weekly start_date end_date).
Local Abbreviation raises' :=
  (Checked.raises DataFrame date fetch_ticker_data weekly start_date end_date).
Local Abbreviation cstep :=
  (Checked.step DataFrame date fetch_ticker_data weekly start_date end_date).
Local Abbreviation crun :=
  (Checked.analyze_ticker_pairs DataFrame date fetch_ticker_data weekly
     start_date end_date).

(** An invariant of [analyze_pair] that holds initially holds after the
    loop. *)
Lemma scan_invariant (P : state -> Prop) :
  P initial ->
  (forall st t1 t2 a, P st -> P (analyze_pair t1 t2 a st)) ->
  forall tickers, P (scan' tickers).
Proof.
  intros H0 Hstep tickers. unfold scan.
  generalize (combinations tickers) initial H0.
  induction l as [|p l IH]; intros st Hst; cbn [fold_left]; [exact Hst|].
  apply IH. unfold step. destruct (aligned_of _ _ _ _ _ _ _ _); auto.
Qed.

Lemma scan_lengths (tickers : list string) :
  length (long_positions (scan' tickers)) = length (pair_scores (scan' tickers)) /\
  length (short_positions (scan' tickers)) = length (pair_scores (scan' tickers)).
Proof.
  apply (scan_invariant (fun st =>
    length (long_positions st) = length (pair_scores st) /\
    length (short_positions st) = length (pair_scores st))); [split; reflexivity|].
  intros st t1 t2 a [Hl Hs].
  destruct (analyze_pair_cases t1 t2 a st) as [->|(ty & r & w & lg & sh & -> & _)];
    [split; assumption|].
  cbn [pair_scores long_positions short_positions].
  rewrite !length_app, Hl, Hs. split; reflexivity.
Qed.

Lemma scan_within_range (tickers : list string) :
  Forall within_range (pair_scores (scan' tickers)).
Proof.
  apply (scan_invariant (fun st => Forall within_range (pair_scores st)));
    [constructor|].
  intros st t1 t2 a Hst.
  destruct (analyze_pair_cases t1 t2 a st)
    as [->|(ty & r & w & lg & sh & -> & Hne & Hcase)]; [exact Hst|].
  cbn [pair_scores]. apply Forall_app. split; [exact Hst|].
  constructor; [|constructor].
  apply signal_within_range; assumption.
Qed.

(** A signal recorded at some step of the loop is still there at the end. *)
Lemma step_keeps (s : Signal.t) (st : state) (p : string * string) :
  In s (pair_scores st) -> In s (pair_scores (step' st p)).
Proof.
  intros Hin. unfold step.
  destruct (aligned_of _ _ _ _ _ _ _ _) as [a|]; [|exact Hin].
  destruct (analyze_pair_cases (fst p) (snd p) a st)
    as [->|(ty & r & w & lg & sh & -> & _)]; [exact Hin|].
  cbn [pair_scores]. apply in_or_app. left. exact Hin.
Qed.

Lemma fold_keeps (s : Signal.t) (l : list (string * string)) (st : state) :
  In s (pair_scores st) -> In s (pair_scores (fold_left step' l st)).
Proof.
  revert st; induction l as [|p l IH]; intros st Hin; cbn [fold_left]; [exact Hin|].
  apply IH, step_keeps, Hin.
Qed.

Lemma fold_records (s : Signal.t) (p : string * string) (a : frame)
    (l : list (string * string)) (st : state) :
  In p l -> aligned_of' (fst p) (snd p) = Some a ->
  (forall st0, In s (pair_scores (analyze_pair (fst p) (snd p) a st0))) ->
  In s (pair_scores (fold_left step' l st)).
Proof.
  intros Hin Ha Hrec. revert st.
  induction l as [|q l IH]; intros st; [contradiction|].
  cbn [fold_left]. destruct Hin as [->|Hin].
  - apply fold_keeps. unfold step. rewrite Ha. apply Hrec.
  - apply IH, Hin.
Qed.

(** A frame of one row has no correlation, hence no score. *)
Lemma correlation_single (r0 : row) : correlation [r0] = NaN.
Proof. reflexivity. Qed.

Lemma total_score_single (r0 : row) : total_score [r0] = NaN.
Proof. unfold total_score. rewrite correlation_single. reflexivity. Qed.

Lemma fle_nan_r (a : float) : fle a NaN = false.
Proof. destruct a; reflexivity. Qed.

Lemma StronglySorted_weaken {A} (R R' : A -> A -> Prop) (l : list A) :
  (forall x y, In x l -> In y l -> R x y -> R' x y) ->
  StronglySorted R l -> StronglySorted R' l.
Proof.
  intros Himp Hs. induction Hs as [|x r Hs IH Hall]; constructor.
  - apply IH. intros; apply Himp; simpl; auto.
  - rewrite Forall_forall in *. intros y Hy. apply Himp; simpl; auto.
Qed.

Lemma score_lt_asym (x y : Signal.t) :
  scored x -> scored y -> score_lt x y = true -> score_lt y x = false.
Proof.
  unfold scored, score_lt. intros Hx Hy.
  destruct (Signal.total_score x), (Signal.total_score y); try congruence.
  cbn [flt]. rewrite Rltb_true, Rltb_false. lra.
Qed.

Lemma score_lt_negtrans (x y z : Signal.t) :
  scored x -> scored y -> scored z ->
  score_lt y x = false -> score_lt z y = false -> score_lt z x = false.
Proof.
  unfold scored, score_lt. intros Hx Hy Hz.
  destruct (Signal.total_score x), (Signal.total_score y), (Signal.total_score z);
    try congruence.
  cbn [flt]. rewrite !Rltb_false. lra.
Qed.

Lemma has_score_class (v : R) (x y : Signal.t) :
  has_score v x = true -> score_lt y x = true -> has_score v y = false.
Proof.
  unfold has_score, score_lt, feq.
  destruct (Signal.total_score x) as [|a], (Signal.total_score y) as [|b];
    cbn [fne flt negb]; try discriminate.
  rewrite !negb_involutive, Rltb_true, Reqb_true, Reqb_false. intros -> H. lra.
Qed.

(** The run with its exception, from the run that completes. *)
Lemma checked_step_spec (st : state) (p : string * string) :
  cstep (Some st) p = if raises' p then None else Some (step' st p).
Proof.
  unfold Checked.step, Checked.raises, step.
  destruct (aligned_of' (fst p) (snd p)) as [[|r0 rest]|]; reflexivity.
Qed.

Lemma checked_fold_none (l : list (string * string)) : fold_left cstep l None = None.
Proof. induction l as [|p l IH]; [reflexivity|exact IH]. Qed.

Lemma checked_fold (l : list (string * string)) (st : state) :
  fold_left cstep l (Some st) =
  if existsb raises' l then None else Some (fold_left step' l st).
Proof.
  revert st. induction l as [|p l IH]; intros st; [reflexivity|].
  cbn [fold_left existsb]. rewrite checked_step_spec.
  destruct (raises' p); cbn [orb]; [apply checked_fold_none|apply IH].
Qed.

Lemma checked_run_spec (tickers : list string) :
  crun tickers =
  if existsb raises' (combinations tickers) then None else Some (run tickers).
Proof.
  unfold Checked.analyze_ticker_pairs, Checked.scan. rewrite checked_fold.
  destruct (existsb raises' (combinations tickers)); reflexivity.
Qed.

Lemma raises_same (p : string * string) : raises' p = true -> fst p = snd p.
Proof.
  unfold Checked.raises.
  destruct (aligned_of' (fst p) (snd p)) as [[|r0 rest]|]; try discriminate.
  apply String.eqb_eq.
Qed.

Lemma distinct_never_raises (tickers : list string) :
  NoDup tickers -> existsb raises' (combinations tickers) = false.
Proof.
  intros Hnd. apply combinations_distinct in Hnd. rewrite Forall_forall in Hnd.
  destruct (existsb raises' (combinations tickers)) eqn:E; [|reflexivity].
  apply existsb_exists in E as (p & Hp & Hr).
  exfalso. apply (Hnd p Hp), raises_same, Hr.
Qed.

Lemma distinct_returns (tickers : list string) :
  NoDup tickers -> crun tickers = Some (run tickers).
Proof.
  intros Hnd. rewrite checked_run_spec, (distinct_never_raises tickers Hnd).
  reflexivity.
Qed.

(** C1 (as amended).  For distinct tickers the run returns, and a pair with
    a single aligned row, whose correlation is undefined, is not left out:
    the loop records a Max level signal for it, whose correlation and score
    are NaN, and that signal is in the ranked list the run returns. *)
Theorem single_row_pair_is_ranked (tickers : list string) (t1 t2 : string) (r0 : row) :
  NoDup tickers ->
  In (t1, t2) (combinations tickers) ->
  aligned_of' t1 t2 = Some [r0] ->
  crun tickers = Some (run tickers) /\
  correlation [r0] = NaN /\
  exists s,
    In s (pair_signals (run tickers)) /\
    Signal.ticker1 s = t1 /\ Signal.ticker2 s = t2 /\
    Signal.signal_type s = MaxLevel /\
    Signal.correlation s = NaN /\ Signal.total_score s = NaN.
Proof.
  intros Hnd Hin Ha. split; [apply distinct_returns, Hnd|]. split; [reflexivity|].
  assert (Hmax : is_max [r0] = true) by (apply is_max_at_top; reflexivity).
  exists (signal_of t1 t2 [r0] MaxLevel
            (fsub (highest [r0]) (current [r0])) (fsub (current [r0]) (lowest [r0]))).
  split.
  - unfold analyze_ticker_pairs. cbn [pair_signals].
    eapply Permutation_in; [symmetry; apply sorted_reverse_perm|].
    unfold scan. apply (fold_records _ (t1, t2) [r0]); [exact Hin|exact Ha|].
    intros st0. cbn [fst snd]. rewrite (analyze_pair_max _ _ _ _ _ Hmax).
    cbn [pair_scores]. apply in_or_app. right. left. reflexivity.
  - cbn [signal_of Signal.ticker1 Signal.ticker2 Signal.signal_type
           Signal.correlation Signal.total_score].
    rewrite total_score_single. repeat split.
Qed.

(** C5 (as amended).  When every recorded signal has a score that is a
    number, the ranked list is in descending order of score, it holds
    exactly the recorded signals, and the signals of any one score are in
    the order in which the loop recorded them. *)
Theorem ranking_sorted_stable (tickers : list string) :
  Forall scored (pair_scores (scan' tickers)) ->
  StronglySorted score_ge (pair_signals (run tickers)) /\
  Permutation (pair_signals (run tickers)) (pair_scores (scan' tickers)) /\
  forall v, filter (has_score v) (pair_signals (run tickers)) =
            filter (has_score v) (pair_scores (scan' tickers)).
Proof.
  intros Hok. unfold analyze_ticker_pairs. cbn [pair_signals].
  split; [|split].
  - unfold sorted_reverse.
    assert (Hrev : Forall scored (rev (pair_scores (scan' tickers))))
      by (apply Forall_rev; exact Hok).
    pose proof (sorted_ordered score_lt scored score_lt_asym score_lt_negtrans _ Hrev)
      as Hs.
    apply StronglySorted_rev in Hs.
    eapply StronglySorted_weaken; [|exact Hs].
    intros x y Hx Hy Hxy. cbv beta in Hxy. unfold not_below, score_lt in Hxy.
    assert (Hall : Forall scored (rev (sorted score_lt (rev (pair_scores (scan' tickers)))))).
    { apply Forall_rev. apply sorted_ok. exact Hrev. }
    rewrite Forall_forall in Hall.
    pose proof (Hall x Hx) as Sx. pose proof (Hall y Hy) as Sy.
    unfold score_ge, scored in *.
    destruct (Signal.total_score x), (Signal.total_score y); try congruence.
    cbn [flt fle] in *. apply Rleb_true. apply Rltb_false in Hxy. exact Hxy.
  - apply sorted_reverse_perm.
  - intros v. apply sorted_reverse_filter. apply has_score_class.
Qed.

(** C7.  The counts of the long tally add up to the number of signals, and
    so do the counts of the short tally. *)
Theorem tally_totals (tickers : list string) :
  list_sum (map snd (longs (run tickers))) = length (pair_signals (run tickers)) /\
  list_sum (map snd (shorts (run tickers))) = length (pair_signals (run tickers)).
Proof.
  unfold analyze_ticker_pairs. cbn [longs shorts pair_signals].
  rewrite !tally_sum.
  rewrite (Permutation_length (sorted_reverse_perm score_lt _)).
  apply scan_lengths.
Qed.

(** C9 (as amended).  For every signal of the ranked list, risk and reward
    are numbers, each between zero and [highest - lowest] of its spread. *)
Theorem risk_reward_span (tickers : list string) (s : Signal.t) :
  In s (pair_signals (run tickers)) -> within_range s.
Proof.
  intros Hin. unfold analyze_ticker_pairs in Hin. cbn [pair_signals] in Hin.
  apply (Permutation_in _ (sorted_reverse_perm score_lt _)) in Hin.
  pose proof (scan_within_range tickers) as Hall.
  rewrite Forall_forall in Hall. apply Hall, Hin.
Qed.

End ScanFacts.

(** Evaluation of the extremes and thresholds of a concrete frame. *)
Ltac stats :=
  unfold is_max, is_min, highest, lowest, current, spread,
    Example.frame_PQ, Example.frame_QS, Example.frame_QT, Example.frame_ST,
    Example.frame_climb, swap_columns;
  cbn [map fst snd last Series.max Series.min fold_left fsub fmul fabs fle];
  try (apply Rleb_true || apply Rleb_false || f_equal);
  real_cases.

Lemma PQ_is_max : is_max Example.frame_PQ = true.
Proof. stats. Qed.

Lemma QS_is_max : is_max Example.frame_QS = true.
Proof. stats. Qed.

Lemma QT_not_max : is_max Example.frame_QT = false.
Proof. stats. Qed.

Lemma QT_is_min : is_min Example.frame_QT = true.
Proof. stats. Qed.

Lemma ST_not_max : is_max Example.frame_ST = false.
Proof. stats. Qed.

Lemma ST_is_min : is_min Example.frame_ST = true.
Proof. stats. Qed.

Lemma climb_is_max : is_max Example.frame_climb = true.
Proof. stats. Qed.

Lemma climb_not_min : is_min Example.frame_climb = false.
Proof. stats. Qed.

Lemma PQ_is_min : is_min Example.frame_PQ = true.
Proof. stats. Qed.

(** The loop over ["P"; "Q"; "S"]: the pair (P, Q) has one aligned row, the
    pair (P, S) has none, the pair (Q, S) has two. *)
Lemma loop_PQS :
  Example.loop ["P"; "Q"; "S"]%string =
  mkState [Example.max_signal "P" "Q" Example.frame_PQ;
           Example.max_signal "Q" "S" Example.frame_QS]
          ["Q"; "S"]%string ["P"; "Q"]%string.
Proof.
  unfold Example.loop, scan.
  change (combinations ["P"; "Q"; "S"]%string)
    with [("P", "Q"); ("P", "S"); ("Q", "S")]%string.
  cbn [fold_left]. unfold step. cbn [fst snd].
  change (aligned_of wseries unit Example.market (fun d => d) tt tt "P" "Q")
    with (Some Example.frame_PQ).
  change (aligned_of wseries unit Example.market (fun d => d) tt tt "P" "S")
    with (Some (@nil row)).
  change (aligned_of wseries unit Example.market (fun d => d) tt tt "Q" "S")
    with (Some Example.frame_QS).
  cbv beta iota.
  rewrite (analyze_max "P" "Q" Example.frame_PQ initial ltac:(discriminate) PQ_is_max).
  cbn [analyze_pair].
  rewrite (analyze_max "Q" "S" Example.frame_QS _ ltac:(discriminate) QS_is_max).
  reflexivity.
Qed.

(** The loop over ["Q"; "S"; "T"]: three pairs of two aligned rows each. *)
Lemma loop_QST :
  Example.loop ["Q"; "S"; "T"]%string =
  mkState [Example.max_signal "Q" "S" Example.frame_QS;
           Example.min_signal "Q" "T" Example.frame_QT;
           Example.min_signal "S" "T" Example.frame_ST]
          ["S"; "Q"; "S"]%string ["Q"; "T"; "T"]%string.
Proof.
  unfold Example.loop, scan.
  change (combinations ["Q"; "S"; "T"]%string)
    with [("Q", "S"); ("Q", "T"); ("S", "T")]%string.
  cbn [fold_left]. unfold step. cbn [fst snd].
  change (aligned_of wseries unit Example.market (fun d => d) tt tt "Q" "S")
    with (Some Example.frame_QS).
  change (aligned_of wseries unit Example.market (fun d => d) tt tt "Q" "T")
    with (Some Example.frame_QT).
  change (aligned_of wseries unit Example.market (fun d => d) tt tt "S" "T")
    with (Some Example.frame_ST).
  cbv beta iota.
  rewrite (analyze_max "Q" "S" Example.frame_QS initial ltac:(discriminate) QS_is_max).
  rewrite (analyze_min "Q" "T" Example.frame_QT _ ltac:(discriminate) QT_not_max QT_is_min).
  rewrite (analyze_min "S" "T" Example.frame_ST _ ltac:(discriminate) ST_not_max ST_is_min).
  reflexivity.
Qed.

Lemma aligned_PQ :
  aligned_of wseries unit Example.market (fun d => d) tt tt "P" "Q" =
  Some Example.frame_PQ.
Proof. reflexivity. Qed.

Lemma run_PQS_signals :
  pair_signals (Example.run ["P"; "Q"; "S"]%string) =
  [Example.max_signal "P" "Q" Example.frame_PQ;
   Example.max_signal "Q" "S" Example.frame_QS].
Proof.
  unfold Example.run, analyze_ticker_pairs. cbn [pair_signals].
  fold (Example.loop ["P"; "Q"; "S"]%string). rewrite loop_PQS. cbn [pair_scores].
  unfold sorted_reverse. cbn [rev app sorted insert].
  unfold score_lt at 1, Example.max_signal at 1.
  cbn [signal_of Signal.total_score].
  unfold Example.frame_PQ at 1. rewrite total_score_single. reflexivity.
Qed.

(** ** C1: a pair without a correlation is ranked all the same *)

(** Counterexample to C1.  The pair (P, Q) has one aligned row, so its
    correlation is NaN; the ranked list of the run holds a signal for it. *)
Lemma single_row_pair_not_excluded :
  aligned_of wseries unit Example.market (fun d => d) tt tt "P" "Q" =
    Some Example.frame_PQ /\
  length Example.frame_PQ = 1%nat /\
  correlation Example.frame_PQ = NaN /\
  exists s, In s (pair_signals (Example.run ["P"; "Q"; "S"]%string)) /\
            Signal.ticker1 s = "P"%string /\ Signal.ticker2 s = "Q"%string /\
            Signal.correlation s = NaN.
Proof.
  repeat split.
  exists (Example.max_signal "P" "Q" Example.frame_PQ).
  rewrite run_PQS_signals. repeat split. left. reflexivity.
Qed.

Lemma PQS_distinct : NoDup ["P"; "Q"; "S"]%string.
Proof.
  repeat constructor; cbn [In]; intros H;
    repeat (destruct H as [H|H]; [discriminate H|]); exact H.
Qed.

Lemma single_row_pair_is_ranked_witness :
  NoDup ["P"; "Q"; "S"]%string /\
  In ("P", "Q")%string (combinations ["P"; "Q"; "S"]%string) /\
  aligned_of wseries unit Example.market (fun d => d) tt tt "P" "Q" =
    Some [(0%Z, (10, 9))] /\
  (Checked.analyze_ticker_pairs wseries unit Example.market (fun d => d) tt tt
     ["P"; "Q"; "S"]%string = Some (Example.run ["P"; "Q"; "S"]%string) /\
   correlation [(0%Z, (10, 9))] = NaN /\
   exists s,
     In s (pair_signals (Example.run ["P"; "Q"; "S"]%string)) /\
     Signal.ticker1 s = "P"%string /\ Signal.ticker2 s = "Q"%string /\
     Signal.signal_type s = MaxLevel /\
     Signal.correlation s = NaN /\ Signal.total_score s = NaN).
Proof.
  assert (Hin : In ("P", "Q")%string (combinations ["P"; "Q"; "S"]%string))
    by (left; reflexivity).
  split; [exact PQS_distinct|]. split; [exact Hin|]. split; [reflexivity|].
  exact (single_row_pair_is_ranked wseries unit Example.market (fun d => d) tt tt
           ["P"; "Q"; "S"]%string "P" "Q" (0%Z, (10, 9)) PQS_distinct Hin eq_refl).
Defined.

(** ** C2: the z-score of a single value *)

(** Counterexample to C2.  The spread of (P, Q) is the single value 1, all
    its values are equal, and its z-score is NaN, not 0. *)
Lemma single_value_z_score_nan :
  Forall (fun x => x = 1) (spread Example.frame_PQ) /\
  length (spread Example.frame_PQ) = 1%nat /\
  z_score Example.frame_PQ = NaN /\
  z_score Example.frame_PQ <> Fin 0.
Proof.
  assert (Hz : z_score Example.frame_PQ = NaN) by apply z_score_single.
  repeat split.
  - unfold Example.frame_PQ, spread. cbn [map fst snd].
    constructor; [lra|constructor].
  - exact Hz.
  - rewrite Hz. discriminate.
Qed.

Lemma zero_std_guard_witness :
  (2 <= length Example.frame_same)%nat /\
  same_columns Example.frame_same /\
  spread_std Example.frame_same = Fin 0 /\ z_score Example.frame_same = Fin 0.
Proof.
  assert (Hlen : (2 <= length Example.frame_same)%nat) by (simpl; lia).
  assert (Hsame : same_columns Example.frame_same)
    by (unfold same_columns, Example.frame_same; repeat constructor).
  split; [exact Hlen|]. split; [exact Hsame|].
  exact (proj2 (zero_std_guard Example.frame_same) Hlen Hsame).
Defined.

(** ** C3, C4 and C10 on the frames above *)

Lemma classifier_cases_witness :
  is_max Example.frame_QS = true /\
  exists s,
    pair_scores (analyze_pair "Q" "S" Example.frame_QS initial) = [s] /\
    Signal.signal_type s = MaxLevel /\
    long_positions (analyze_pair "Q" "S" Example.frame_QS initial) = ["S"%string] /\
    short_positions (analyze_pair "Q" "S" Example.frame_QS initial) = ["Q"%string].
Proof.
  split; [exact QS_is_max|].
  destruct (proj1 (classifier_cases "Q" "S" (1%Z, (3, 1)) [(2%Z, (5, 2))] initial)
              QS_is_max)
    as (s & Hs & _ & _ & Hty & _ & _ & Hl & Hsh).
  exists s. repeat split; assumption.
Defined.

Lemma max_has_priority_witness :
  is_max Example.frame_PQ = true /\ is_min Example.frame_PQ = true /\
  exists s,
    pair_scores (analyze_pair "P" "Q" Example.frame_PQ initial) =
      pair_scores initial ++ [s] /\
    Signal.signal_type s = MaxLevel /\
    long_positions (analyze_pair "P" "Q" Example.frame_PQ initial) =
      long_positions initial ++ ["Q"%string] /\
    short_positions (analyze_pair "P" "Q" Example.frame_PQ initial) =
      short_positions initial ++ ["P"%string].
Proof.
  split; [exact PQ_is_max|]. split; [exact PQ_is_min|].
  exact (max_has_priority "P" "Q" (0%Z, (10, 9)) [] initial PQ_is_max PQ_is_min).
Defined.

Lemma climb_current_highest :
  current Example.frame_climb = highest Example.frame_climb.
Proof. stats. Qed.

Lemma current_at_highest_witness :
  current Example.frame_climb = highest Example.frame_climb /\
  exists s,
    pair_scores (analyze_pair "A" "B" Example.frame_climb initial) =
      pair_scores initial ++ [s] /\
    Signal.signal_type s = MaxLevel /\ Signal.risk s = Fin 0.
Proof.
  split; [exact climb_current_highest|].
  exact (proj1 (current_at_highest "A" "B" (0%Z, (2, 1)) [(1%Z, (4, 1))] initial)
           climb_current_highest).
Defined.

(** ** C5: ranking with and without NaN scores *)

(** Counterexample to C5.  The run over P, Q, S records the signal of
    (P, Q), whose score is NaN, and then that of (Q, S).  The ranked list
    keeps them in that order, and it is not in descending order of score:
    the score of its second signal is not at most the score of its first. *)
Lemma ranking_with_nan_unsorted :
  pair_signals (Example.run ["P"; "Q"; "S"]%string) =
    [Example.max_signal "P" "Q" Example.frame_PQ;
     Example.max_signal "Q" "S" Example.frame_QS] /\
  Signal.total_score (Example.max_signal "P" "Q" Example.frame_PQ) = NaN /\
  ~ StronglySorted score_ge (pair_signals (Example.run ["P"; "Q"; "S"]%string)).
Proof.
  assert (Hnan : Signal.total_score (Example.max_signal "P" "Q" Example.frame_PQ) = NaN)
    by apply total_score_single.
  split; [exact run_PQS_signals|]. split; [exact Hnan|].
  rewrite run_PQS_signals. intros Hs.
  inversion Hs as [|x l _ Hall]; subst.
  inversion Hall as [|y l' Hge _]; subst.
  unfold score_ge in Hge. rewrite Hnan, fle_nan_r in Hge. discriminate.
Qed.

Lemma var_two (x y : R) : Series.var [x; y] = (x - y) * (x - y) / 2.
Proof.
  unfold Series.var, Series.sdev, Series.sum.
  cbn [length combine map fst snd fold_right INR]. field.
Qed.

Lemma QS_scored : total_score Example.frame_QS <> NaN.
Proof.
  apply total_score_scored; [simpl; lia| |];
    unfold Example.frame_QS, column1, column2; cbn [map fst snd];
    rewrite var_two; lra.
Qed.

Lemma QT_scored : total_score Example.frame_QT <> NaN.
Proof.
  apply total_score_scored; [simpl; lia| |];
    unfold Example.frame_QT, column1, column2; cbn [map fst snd];
    rewrite var_two; lra.
Qed.

Lemma ST_scored : total_score Example.frame_ST <> NaN.
Proof.
  apply total_score_scored; [simpl; lia| |];
    unfold Example.frame_ST, column1, column2; cbn [map fst snd];
    rewrite var_two; lra.
Qed.

Lemma loop_QST_scored :
  Forall scored
    (pair_scores (scan wseries unit Example.market (fun d => d) tt tt
                    ["Q"; "S"; "T"]%string)).
Proof.
  fold (Example.loop ["Q"; "S"; "T"]%string). rewrite loop_QST. cbn [pair_scores].
  repeat constructor; unfold scored, Example.max_signal, Example.min_signal;
    cbn [signal_of Signal.total_score].
  - exact QS_scored.
  - exact QT_scored.
  - exact ST_scored.
Qed.

Lemma ranking_sorted_stable_witness :
  Forall scored (pair_scores (Example.loop ["Q"; "S"; "T"]%string)) /\
  StronglySorted score_ge (pair_signals (Example.run ["Q"; "S"; "T"]%string)) /\
  Permutation (pair_signals (Example.run ["Q"; "S"; "T"]%string))
              (pair_scores (Example.loop ["Q"; "S"; "T"]%string)) /\
  forall v, filter (has_score v) (pair_signals (Example.run ["Q"; "S"; "T"]%string)) =
            filter (has_score v) (pair_scores (Example.loop ["Q"; "S"; "T"]%string)).
Proof.
  split; [exact loop_QST_scored|].
  exact (ranking_sorted_stable wseries unit Example.market (fun d => d) tt tt
           ["Q"; "S"; "T"]%string loop_QST_scored).
Defined.

(** ** C6: exchanging the instruments of a rising spread *)

(** Counterexample to C6.  For the frame [frame_climb] of the pair (A, B)
    the spread rises to its maximum: the signal is Max level, long B and
    short A, with risk 0 and reward 2.  For the pair (B, A) the spread falls
    to its minimum: the signal is Min level, and it is again long B and
    short A, with risk 0 and reward 2.  The recommendation is not inverted
    and risk and reward are not exchanged. *)
Lemma swap_keeps_recommendation :
  analyze_pair "A" "B" Example.frame_climb initial =
    mkState [Example.max_signal "A" "B" Example.frame_climb]
            ["B"%string] ["A"%string] /\
  analyze_pair "B" "A" (swap_columns Example.frame_climb) initial =
    mkState [Example.min_signal "B" "A" (swap_columns Example.frame_climb)]
            ["B"%string] ["A"%string] /\
  Signal.risk (Example.max_signal "A" "B" Example.frame_climb) = Fin 0 /\
  Signal.reward (Example.max_signal "A" "B" Example.frame_climb) = Fin 2 /\
  Signal.risk (Example.min_signal "B" "A" (swap_columns Example.frame_climb)) = Fin 0 /\
  Signal.reward (Example.min_signal "B" "A" (swap_columns Example.frame_climb)) = Fin 2.
Proof.
  assert (Hmax' : is_max (swap_columns Example.frame_climb) = false)
    by (rewrite is_max_swap; exact climb_not_min).
  assert (Hmin' : is_min (swap_columns Example.frame_climb) = true)
    by (rewrite is_min_swap; exact climb_is_max).
  repeat split.
  - apply (analyze_max "A" "B" Example.frame_climb initial);
      [discriminate|exact climb_is_max].
  - apply (analyze_min "B" "A" (swap_columns Example.frame_climb) initial);
      [discriminate|exact Hmax'|exact Hmin'].
  - cbn [Example.max_signal signal_of Signal.risk]. stats.
  - cbn [Example.max_signal signal_of Signal.reward]. stats.
  - cbn [Example.min_signal signal_of Signal.risk]. stats.
  - cbn [Example.min_signal signal_of Signal.reward]. stats.
Qed.

(** ** C8: the probability of a single value *)

(** Counterexample to C8.  With the single aligned row of (P, Q) the
    mean-reversion probability is NaN: it is no number of [[0, 1]]. *)
Lemma single_row_prob_nan :
  mean_rev_prob Example.frame_PQ = NaN /\
  ~ (exists p, mean_rev_prob Example.frame_PQ = Fin p /\ 0 <= p <= 1).
Proof.
  assert (H : mean_rev_prob Example.frame_PQ = NaN) by apply mean_rev_prob_single.
  split; [exact H|]. intros (p & Hp & _). rewrite H in Hp. discriminate.
Qed.

Lemma mean_rev_prob_clamped_witness :
  (2 <= length Example.frame_QS)%nat /\
  exists z,
    z_score Example.frame_QS = Fin z /\
    mean_rev_prob Example.frame_QS = Fin (clamp (1 - Rabs z / 3) 0 1) /\
    0 <= clamp (1 - Rabs z / 3) 0 1 <= 1.
Proof.
  assert (Hlen : (2 <= length Example.frame_QS)%nat) by (simpl; lia).
  split; [exact Hlen|].
  exact (mean_rev_prob_clamped Example.frame_QS Hlen).
Defined.

(** ** C9 on the run over P, Q, S *)

Lemma risk_reward_span_witness :
  In (Example.max_signal "Q" "S" Example.frame_QS)
     (pair_signals (Example.run ["P"; "Q"; "S"]%string)) /\
  within_range (Example.max_signal "Q" "S" Example.frame_QS).
Proof.
  assert (Hin : In (Example.max_signal "Q" "S" Example.frame_QS)
                   (pair_signals (Example.run ["P"; "Q"; "S"]%string))).
  { rewrite run_PQS_signals. right. left. reflexivity. }
  split; [exact Hin|].
  exact (risk_reward_span wseries unit Example.market (fun d => d) tt tt
           ["P"; "Q"; "S"]%string _ Hin).
Defined.

(* ================================================================== *)
(** * The loop as a concatenation over the pairs *)

Lemma analyze_pair_appends t1 t2 (a : frame) (st : state) :
  analyze_pair t1 t2 a st =
  mkState (pair_scores st ++ pair_scores (analyze_pair t1 t2 a initial))
          (long_positions st ++ map long_of (pair_scores (analyze_pair t1 t2 a initial)))
          (short_positions st ++ map short_of (pair_scores (analyze_pair t1 t2 a initial))).
Proof.
  destruct a as [|r0 rest].
  - cbn [analyze_pair pair_scores initial map]. rewrite !app_nil_r.
    destruct st; reflexivity.
  - destruct (is_max (r0 :: rest)) eqn:Ea.
    + rewrite !(analyze_pair_max _ _ _ _ _ Ea). reflexivity.
    + destruct (is_min (r0 :: rest)) eqn:Ei.
      * rewrite !(analyze_pair_min _ _ _ _ _ Ea Ei). reflexivity.
      * rewrite !(analyze_pair_none _ _ _ _ _ Ea Ei).
        cbn [pair_scores initial map]. rewrite !app_nil_r. destruct st; reflexivity.
Qed.

Lemma analyze_pair_at_most_one t1 t2 (a : frame) :
  (length (pair_scores (analyze_pair t1 t2 a initial)) <= 1)%nat.
Proof.
  destruct (analyze_pair_cases t1 t2 a initial) as [->|(? & ? & ? & ? & ? & -> & _)];
    simpl; lia.
Qed.

Section ScanStructure.
Variable DataFrame : Type.
Variable date : Type.
Variable fetch_ticker_data : string -> date -> date -> option DataFrame.
Variable weekly : DataFrame -> wseries.
Variables start_date end_date : date.

Local Abbreviation aligned_of' :=
  (aligned_of DataFrame date fetch_ticker_data weekly start_date end_date).
Local Abbreviation step' :=
  (step DataFrame date fetch_ticker_data weekly start_date end_date).
Local Abbreviation scan' :=
  (scan DataFrame date fetch_ticker_data weekly start_date end_date).
Local Abbreviation run :=
  (analyze_ticker_pairs DataFrame date fetch_ticker_data weekly start_date end_date).
Local Abbreviation emitted' :=
  (emitted DataFrame date fetch_ticker_data weekly start_date end_date).

Lemma step_appends (st : state) (p : string * string) :
  step' st p =
  mkState (pair_scores st ++ emitted' p)
          (long_positions st ++ map long_of (emitted' p))
          (short_positions st ++ map short_of (emitted' p)).
Proof.
  unfold step, emitted. destruct (aligned_of _ _ _ _ _ _ _ _) as [a|].
  - apply analyze_pair_appends.
  - cbn [map]. rewrite !app_nil_r. destruct st; reflexivity.
Qed.

Lemma fold_appends (l : list (string * string)) (st : state) :
  fold_left step' l st =
  mkState (pair_scores st ++ flat_map emitted' l)
          (long_positions st ++ map long_of (flat_map emitted' l))
          (short_positions st ++ map short_of (flat_map emitted' l)).
Proof.
  revert st; induction l as [|p l IH]; intros st; cbn [fold_left flat_map map].
  - rewrite !app_nil_r. destruct st; reflexivity.
  - rewrite IH, step_appends. cbn [pair_scores long_positions short_positions].
    rewrite !map_app, <- !app_assoc. reflexivity.
Qed.

(** X1.  The loop records, in the order of the combinations, what each pair
    records on its own: the signal of a pair does not depend on the other
    tickers of the list, and the long and short lists name the instruments
    of the recorded signals, in the same order. *)
Theorem scan_is_concatenation (tickers : list string) :
  pair_scores (scan' tickers) = flat_map emitted' (combinations tickers) /\
  long_positions (scan' tickers) = map long_of (pair_scores (scan' tickers)) /\
  short_positions (scan' tickers) = map short_of (pair_scores (scan' tickers)) /\
  forall p, (length (emitted' p) <= 1)%nat.
Proof.
  unfold scan. rewrite fold_appends. cbn [pair_scores long_positions short_positions initial app].
  repeat split. intros p. unfold emitted.
  destruct (aligned_of _ _ _ _ _ _ _ _); [apply analyze_pair_at_most_one|simpl; lia].
Qed.

Lemma scan_scores (tickers : list string) :
  pair_scores (scan' tickers) = flat_map emitted' (combinations tickers).
Proof. unfold scan. rewrite fold_appends. reflexivity. Qed.

Lemma scan_longs (tickers : list string) :
  long_positions (scan' tickers) = map long_of (pair_scores (scan' tickers)).
Proof. unfold scan. rewrite fold_appends. reflexivity. Qed.

Lemma scan_shorts (tickers : list string) :
  short_positions (scan' tickers) = map short_of (pair_scores (scan' tickers)).
Proof. unfold scan. rewrite fold_appends. reflexivity. Qed.

Lemma ranked_perm (tickers : list string) :
  Permutation (pair_signals (run tickers)) (pair_scores (scan' tickers)).
Proof. unfold analyze_ticker_pairs. cbn [pair_signals]. apply sorted_reverse_perm. Qed.

Lemma ranked_in (tickers : list string) (s : Signal.t) :
  In s (pair_signals (run tickers)) <-> In s (pair_scores (scan' tickers)).
Proof.
  split; apply Permutation_in; [|symmetry]; apply ranked_perm.
Qed.

Lemma emitted_short (p : string * string) : (length (emitted' p) <= 1)%nat.
Proof.
  unfold emitted.
  destruct (aligned_of _ _ _ _ _ _ _ _); [apply analyze_pair_at_most_one|simpl; lia].
Qed.

Lemma flat_map_short {A B} (f : A -> list B) (l : list A) :
  (forall x, (length (f x) <= 1)%nat) ->
  (length (flat_map f l) <= length l)%nat.
Proof.
  intros Hf. induction l as [|x l IH]; cbn [flat_map length]; [lia|].
  rewrite length_app. specialize (Hf x). lia.
Qed.

Lemma combinations_length (l : list string) :
  (2 * length (combinations l) = length l * (length l - 1))%nat.
Proof.
  induction l as [|t r IH]; [reflexivity|].
  cbn [combinations length]. rewrite length_app, length_map.
  replace (S (length r) - 1)%nat with (length r) by lia.
  destruct (length r) as [|n] eqn:E; [simpl in *; lia|].
  replace (S n - 1)%nat with n in IH by lia. nia.
Qed.

(** X2.  A run over [n] tickers visits [n (n - 1) / 2] pairs and ranks at
    most one signal per pair. *)
Theorem signals_bounded_by_pairs (tickers : list string) :
  (2 * length (combinations tickers) = length tickers * (length tickers - 1))%nat /\
  (length (pair_signals (run tickers)) <= length (combinations tickers))%nat.
Proof.
  split; [apply combinations_length|].
  rewrite (Permutation_length (ranked_perm tickers)), scan_scores.
  apply flat_map_short, emitted_short.
Qed.

(** What a pair records, spelled out. *)
Lemma emitted_spec (p : string * string) (s : Signal.t) :
  In s (emitted' p) <->
  exists a,
    aligned_of' (fst p) (snd p) = Some a /\ a <> [] /\
    ((is_max a = true /\
      s = signal_of (fst p) (snd p) a MaxLevel
            (fsub (highest a) (current a)) (fsub (current a) (lowest a))) \/
     (is_max a = false /\ is_min a = true /\
      s = signal_of (fst p) (snd p) a MinLevel
            (fsub (current a) (lowest a)) (fsub (highest a) (current a)))).
Proof.
  unfold emitted. destruct (aligned_of _ _ _ _ _ _ _ _) as [a|].
  - destruct a as [|r0 rest].
    + simpl. split; [tauto|]. intros (a & Ha & Hne & _). inversion Ha; subst. congruence.
    + destruct (is_max (r0 :: rest)) eqn:Ea; [|destruct (is_min (r0 :: rest)) eqn:Ei].
      * rewrite (analyze_pair_max _ _ _ _ _ Ea). cbn [pair_scores initial app In]. split.
        -- intros [<-|[]]. exists (r0 :: rest). split; [reflexivity|].
           split; [discriminate|]. left. split; [exact Ea|reflexivity].
        -- intros (a & Ha & _ & [[_ ->]|[Hm _]]); inversion Ha; subst;
             [left; reflexivity|congruence].
      * rewrite (analyze_pair_min _ _ _ _ _ Ea Ei). cbn [pair_scores initial app In]. split.
        -- intros [<-|[]]. exists (r0 :: rest). split; [reflexivity|].
           split; [discriminate|]. right. repeat split; assumption.
        -- intros (a & Ha & _ & [[Hm _]|(_ & _ & ->)]); inversion Ha; subst;
             [congruence|left; reflexivity].
      * rewrite (analyze_pair_none _ _ _ _ _ Ea Ei). cbn [pair_scores initial In].
        split; [tauto|].
        intros (a & Ha & _ & [[Hm _]|(_ & Hm & _)]); inversion Ha; subst; congruence.
  - simpl. split; [tauto|]. intros (a & Ha & _). discriminate.
Qed.

(** X3.  For distinct tickers the run returns, and a signal is in the ranked
    list it returns exactly when it is the record of a visited pair: both
    tickers have data, their aligned frame is not empty, and either [is_max]
    holds and the signal is the Max level record of that frame, or only
    [is_min] holds and it is the Min level record. *)
Theorem ranked_signals_characterised (tickers : list string) (s : Signal.t) :
  NoDup tickers ->
  exists r,
    Checked.analyze_ticker_pairs DataFrame date fetch_ticker_data weekly
      start_date end_date tickers = Some r /\
    (In s (pair_signals r) <->
     exists t1 t2 a,
       In (t1, t2) (combinations tickers) /\
       aligned_of' t1 t2 = Some a /\ a <> [] /\
       ((is_max a = true /\
         s = signal_of t1 t2 a MaxLevel
               (fsub (highest a) (current a)) (fsub (current a) (lowest a))) \/
        (is_max a = false /\ is_min a = true /\
         s = signal_of t1 t2 a MinLevel
               (fsub (current a) (lowest a)) (fsub (highest a) (current a))))).
Proof.
  intros Hnd. exists (run tickers).
  split; [apply distinct_returns, Hnd|].
  rewrite ranked_in, scan_scores, in_flat_map. split.
  - intros ([t1 t2] & Hp & Hs). apply emitted_spec in Hs as (a & Ha).
    exists t1, t2, a. split; [exact Hp|exact Ha].
  - intros (t1 & t2 & a & Hp & Ha). exists (t1, t2). split; [exact Hp|].
    apply emitted_spec. exists a. exact Ha.
Qed.

End ScanStructure.

(* ================================================================== *)
(** * The order of strings *)

Lemma ascii_compare_refl (a : ascii) : Ascii.compare a a = Eq.
Proof. unfold Ascii.compare. apply N.compare_refl. Qed.

Lemma string_compare_refl (s : string) : String.compare s s = Eq.
Proof.
  induction s as [|a s IH]; [reflexivity|].
  cbn [String.compare]. rewrite ascii_compare_refl. exact IH.
Qed.

Lemma ascii_compare_trans (a b c : ascii) :
  Ascii.compare a b = Lt -> Ascii.compare b c = Lt -> Ascii.compare a c = Lt.
Proof.
  unfold Ascii.compare. rewrite !N.compare_lt_iff. apply N.lt_trans.
Qed.

Lemma string_compare_trans (s1 s2 s3 : string) :
  String.compare s1 s2 = Lt -> String.compare s2 s3 = Lt ->
  String.compare s1 s3 = Lt.
Proof.
  revert s2 s3. induction s1 as [|a s1 IH]; intros [|b s2] [|c s3];
    cbn [String.compare]; try congruence.
  destruct (Ascii.compare a b) eqn:Eab; try discriminate;
    destruct (Ascii.compare b c) eqn:Ebc; try discriminate.
  - apply Ascii.compare_eq_iff in Eab, Ebc. subst.
    rewrite ascii_compare_refl. apply IH.
  - apply Ascii.compare_eq_iff in Eab. subst. rewrite Ebc. reflexivity.
  - apply Ascii.compare_eq_iff in Ebc. subst. rewrite Eab. reflexivity.
  - rewrite (ascii_compare_trans _ _ _ Eab Ebc). reflexivity.
Qed.

Lemma string_ltb_asym (s1 s2 : string) :
  String.ltb s1 s2 = true -> String.ltb s2 s1 = false.
Proof.
  unfold String.ltb. rewrite (String.compare_antisym s2 s1).
  destruct (String.compare s1 s2); simpl; congruence.
Qed.

Lemma string_ltb_total (s1 s2 : string) :
  s1 <> s2 -> String.ltb s2 s1 = false -> String.ltb s1 s2 = true.
Proof.
  unfold String.ltb. rewrite (String.compare_antisym s2 s1). intros Hne.
  destruct (String.compare s1 s2) eqn:E; simpl; try congruence.
  apply String.compare_eq_iff in E. contradiction.
Qed.

Lemma string_ltb_negtrans (s1 s2 s3 : string) :
  String.ltb s2 s1 = false -> String.ltb s3 s2 = false -> String.ltb s3 s1 = false.
Proof.
  intros H21 H32.
  destruct (String.eqb_spec s1 s2) as [->|N12]; [exact H32|].
  destruct (String.eqb_spec s2 s3) as [->|N23]; [exact H21|].
  pose proof (string_ltb_total _ _ N12 H21) as L12.
  pose proof (string_ltb_total _ _ N23 H32) as L23.
  apply string_ltb_asym. unfold String.ltb in *.
  destruct (String.compare s1 s2) eqn:E12; try discriminate.
  destruct (String.compare s2 s3) eqn:E23; try discriminate.
  rewrite (string_compare_trans _ _ _ E12 E23). reflexivity.
Qed.

(* ================================================================== *)
(** * The tallies *)

Lemma tally_lt_asym (x y : string * nat) :
  tally_lt x y = true -> tally_lt y x = false.
Proof.
  unfold tally_lt. destruct x as [ax nx], y as [ay ny]. cbn [fst snd].
  rewrite orb_true_iff, andb_true_iff, orb_false_iff, andb_false_iff.
  rewrite !Nat.ltb_lt, !Nat.ltb_ge, Nat.eqb_eq, Nat.eqb_neq.
  intros [H|[H L]]; split; try lia.
  right. apply string_ltb_asym, L.
Qed.

Lemma tally_lt_negtrans (x y z : string * nat) :
  tally_lt y x = false -> tally_lt z y = false -> tally_lt z x = false.
Proof.
  unfold tally_lt. destruct x as [ax nx], y as [ay ny], z as [az nz]. cbn [fst snd].
  rewrite !orb_false_iff, !andb_false_iff, !Nat.ltb_ge, !Nat.eqb_neq.
  intros [H1 L1] [H2 L2]. split; [lia|].
  destruct (Nat.eq_dec nz nx) as [E|E]; [|left; exact E].
  right. destruct L1 as [L1|L1]; [lia|]. destruct L2 as [L2|L2]; [lia|].
  apply (string_ltb_negtrans ax ay az); assumption.
Qed.

Lemma tally_lt_before (a b : string * nat) :
  fst a <> fst b -> tally_lt b a = false -> tally_before a b.
Proof.
  unfold tally_lt, tally_before. destruct a as [ka na], b as [kb nb]. cbn [fst snd].
  rewrite orb_false_iff, andb_false_iff, Nat.ltb_ge, Nat.eqb_neq.
  intros Hne [H L].
  destruct (Nat.eq_dec na nb) as [E|E]; [|left; lia].
  right. split; [exact E|]. destruct L as [L|L]; [lia|].
  apply string_ltb_total; assumption.
Qed.

Lemma count_one_keys (k x : string) (c : list (string * nat)) :
  In x (map fst (count_one k c)) <-> x = k \/ In x (map fst c).
Proof.
  induction c as [|[k' n] r IH]; cbn [count_one].
  - simpl. intuition.
  - destruct (String.eqb_spec k k') as [->|Hne]; cbn [map fst In].
    + intuition.
    + rewrite IH. intuition.
Qed.

Lemma count_one_nodup (k : string) (c : list (string * nat)) :
  NoDup (map fst c) -> NoDup (map fst (count_one k c)).
Proof.
  induction c as [|[k' n] r IH]; cbn [count_one]; intros Hnd.
  - simpl. constructor; [intros []|constructor].
  - cbn [map fst] in Hnd. inversion Hnd as [|? ? Hnin Hr]; subst.
    destruct (String.eqb_spec k k') as [->|Hne]; cbn [map fst].
    + constructor; assumption.
    + constructor; [|apply IH, Hr].
      rewrite count_one_keys. intros [E|E]; [congruence|contradiction].
Qed.

Lemma count_one_positive (k : string) (c : list (string * nat)) :
  Forall (fun e => (1 <= snd e)%nat) c ->
  Forall (fun e => (1 <= snd e)%nat) (count_one k c).
Proof.
  induction 1 as [|[k' n] r Hn Hr IH]; cbn [count_one].
  - repeat constructor.
  - destruct (String.eqb k k'); constructor; cbn [snd] in *; auto; lia.
Qed.

Lemma count_one_count (t k : string) (c : list (string * nat)) :
  count_of t (count_one k c) =
  (count_of t c + if String.eqb t k then 1 else 0)%nat.
Proof.
  induction c as [|[k' n] r IH]; cbn [count_one count_of].
  - destruct (String.eqb t k); reflexivity.
  - destruct (String.eqb_spec k k') as [->|Hne]; cbn [count_of].
    + destruct (String.eqb t k'); lia.
    + destruct (String.eqb_spec t k') as [->|Hne'].
      * destruct (String.eqb_spec k' k); [congruence|lia].
      * exact IH.
Qed.

Lemma Counter_from (l : list string) (c : list (string * nat)) :
  NoDup (map fst c) -> Forall (fun e => (1 <= snd e)%nat) c ->
  let c' := fold_left (fun c k => count_one k c) l c in
  NoDup (map fst c') /\ Forall (fun e => (1 <= snd e)%nat) c' /\
  (forall x, In x (map fst c') <-> In x (map fst c) \/ In x l) /\
  (forall t, count_of t c' = (count_of t c + count_occ string_dec l t)%nat).
Proof.
  revert c. induction l as [|k r IH]; intros c Hnd Hpos; cbn [fold_left].
  - repeat split; auto; try tauto. intros [H|[]]; exact H.
  - destruct (IH (count_one k c) (count_one_nodup k c Hnd) (count_one_positive k c Hpos))
      as (H1 & H2 & H3 & H4).
    repeat split; auto.
    + intros Hx. apply H3 in Hx. rewrite count_one_keys in Hx. simpl. intuition.
    + intros Hx. apply H3. rewrite count_one_keys. simpl in Hx. intuition.
    + intros t. rewrite H4, count_one_count. cbn [count_occ].
      destruct (string_dec k t) as [->|Hne].
      * rewrite String.eqb_refl. lia.
      * destruct (String.eqb_spec t k); [congruence|lia].
Qed.

Lemma Counter_spec (l : list string) :
  NoDup (map fst (Counter l)) /\
  Forall (fun e => (1 <= snd e)%nat) (Counter l) /\
  (forall x, In x (map fst (Counter l)) <-> In x l) /\
  (forall t, count_of t (Counter l) = count_occ string_dec l t).
Proof.
  destruct (Counter_from l [] (NoDup_nil _) (Forall_nil _)) as (H1 & H2 & H3 & H4).
  repeat split; auto.
  - intros Hx. apply H3 in Hx. destruct Hx as [[]|Hx]. exact Hx.
  - intros Hx. apply H3. right. exact Hx.
Qed.

Lemma count_of_in (t : string) (n : nat) (c : list (string * nat)) :
  NoDup (map fst c) -> In (t, n) c -> count_of t c = n.
Proof.
  induction c as [|[k m] r IH]; intros Hnd Hin; [contradiction|].
  cbn [map fst] in Hnd. inversion Hnd as [|? ? Hnin Hr]; subst.
  cbn [count_of]. destruct Hin as [E|Hin].
  - inversion E; subst. rewrite String.eqb_refl. reflexivity.
  - destruct (String.eqb_spec t k) as [->|_]; [|apply IH; assumption].
    exfalso. apply Hnin. apply (in_map fst) in Hin. exact Hin.
Qed.

Lemma count_of_absent (t : string) (c : list (string * nat)) :
  ~ In t (map fst c) -> count_of t c = 0%nat.
Proof.
  induction c as [|[k m] r IH]; intros Hnin; [reflexivity|].
  cbn [count_of]. destruct (String.eqb_spec t k) as [->|_].
  - exfalso. apply Hnin. left. reflexivity.
  - apply IH. intros H. apply Hnin. right. exact H.
Qed.

Lemma count_of_present (t : string) (c : list (string * nat)) :
  In t (map fst c) -> In (t, count_of t c) c.
Proof.
  induction c as [|[k m] r IH]; intros Hin; [contradiction|].
  cbn [count_of]. destruct (String.eqb_spec t k) as [->|Hne].
  - left. reflexivity.
  - right. apply IH. destruct Hin as [E|Hin]; [simpl in E; congruence|exact Hin].
Qed.

Lemma count_of_perm (t : string) (c c' : list (string * nat)) :
  NoDup (map fst c) -> Permutation c c' -> count_of t c' = count_of t c.
Proof.
  intros Hnd Hp.
  assert (Hnd' : NoDup (map fst c'))
    by (eapply Permutation_NoDup; [apply Permutation_map, Hp|exact Hnd]).
  destruct (in_dec string_dec t (map fst c)) as [Hin|Hnin].
  - apply count_of_in; [exact Hnd'|].
    eapply Permutation_in; [exact Hp|]. apply count_of_present, Hin.
  - rewrite (count_of_absent t c Hnin). apply count_of_absent.
    intros H. apply Hnin.
    eapply Permutation_in; [symmetry; apply Permutation_map, Hp|exact H].
Qed.

Lemma StronglySorted_distinct {A B} (f : A -> B) (R : A -> A -> Prop) (l : list A) :
  NoDup (map f l) -> StronglySorted R l ->
  StronglySorted (fun a b => R a b /\ f a <> f b) l.
Proof.
  intros Hnd Hs. induction Hs as [|x r Hs IH Hall]; [constructor|].
  cbn [map] in Hnd. inversion Hnd as [|? ? Hnin Hr]; subst.
  constructor; [apply IH, Hr|].
  rewrite Forall_forall in *. intros y Hy. split; [apply Hall, Hy|].
  intros E. apply Hnin. rewrite E. apply in_map, Hy.
Qed.

(** The sorted tally of a list of recommended instruments. *)
Lemma tally_spec (l : list string) :
  let c := sorted tally_lt (Counter l) in
  NoDup (map fst c) /\ StronglySorted tally_before c /\
  Forall (fun e => (1 <= snd e)%nat) c /\
  (forall x, In x (map fst c) <-> In x l) /\
  (forall t, count_of t c = count_occ string_dec l t).
Proof.
  intros c. destruct (Counter_spec l) as (H1 & H2 & H3 & H4).
  pose proof (sorted_perm tally_lt (Counter l)) as Hp. fold c in Hp.
  assert (Hnd : NoDup (map fst c))
    by (eapply Permutation_NoDup; [symmetry; apply Permutation_map, Hp|exact H1]).
  split; [exact Hnd|]. split; [|split; [|split]].
  - assert (Hs : StronglySorted (not_below tally_lt) c).
    { apply (sorted_ordered tally_lt (fun _ => True)).
      - intros x y _ _. apply tally_lt_asym.
      - intros x y z _ _ _. apply tally_lt_negtrans.
      - rewrite Forall_forall. auto. }
    apply (StronglySorted_distinct fst _ _ Hnd) in Hs.
    eapply StronglySorted_weaken; [|exact Hs].
    intros a b _ _ [Hab Hne]. apply tally_lt_before; assumption.
  - eapply Permutation_Forall; [symmetry; exact Hp|exact H2].
  - intros x. rewrite <- H3. split; apply Permutation_in;
      [|symmetry]; apply Permutation_map; exact Hp.
  - intros t. rewrite <- H4. apply count_of_perm; [exact H1|symmetry; exact Hp].
Qed.

Lemma combinations_spec (l : list string) (a b : string) :
  In (a, b) (combinations l) <->
  exists l1 l2 l3, l = l1 ++ a :: l2 ++ b :: l3.
Proof.
  induction l as [|t r IH]; cbn [combinations].
  - split; [intros []|]. intros (l1 & l2 & l3 & H). destruct l1; discriminate.
  - rewrite in_app_iff, in_map_iff, IH. split.
    + intros [(x & E & Hx)|(l1 & l2 & l3 & E)].
      * inversion E; subst. apply in_split in Hx as (l2 & l3 & ->).
        exists [], l2, l3. reflexivity.
      * exists (t :: l1), l2, l3. rewrite E. reflexivity.
    + intros (l1 & l2 & l3 & E). destruct l1 as [|t' l1]; cbn [app] in E.
      * inversion E; subst. left. exists b. split; [reflexivity|].
        apply in_or_app. right. left. reflexivity.
      * inversion E; subst. right. exists l1, l2, l3. reflexivity.
Qed.

Section TallyFacts.
Variable DataFrame : Type.
Variable date : Type.
Variable fetch_ticker_data : string -> date -> date -> option DataFrame.
Variable weekly : DataFrame -> wseries.
Variables start_date end_date : date.

Local Abbreviation aligned_of' :=
  (aligned_of DataFrame date fetch_ticker_data weekly start_date end_date).
Local Abbreviation scan' :=
  (scan DataFrame date fetch_ticker_data weekly start_date end_date).
Local Abbreviation run :=
  (analyze_ticker_pairs DataFrame date fetch_ticker_data weekly start_date end_date).
Local Abbreviation emitted' :=
  (emitted DataFrame date fetch_ticker_data weekly start_date end_date).

Lemma aligned_of_data (t1 t2 : string) (a : frame) :
  aligned_of' t1 t2 = Some a ->
  fetch_ticker_data t1 start_date end_date <> None /\
  fetch_ticker_data t2 start_date end_date <> None.
Proof.
  unfold aligned_of.
  destruct (fetch_ticker_data t1 start_date end_date);
    destruct (fetch_ticker_data t2 start_date end_date); try discriminate.
  intros _. split; discriminate.
Qed.

(** Where a recorded signal comes from. *)
Lemma recorded_origin (tickers : list string) (s : Signal.t) :
  In s (pair_scores (scan' tickers)) ->
  In (Signal.ticker1 s, Signal.ticker2 s) (combinations tickers) /\
  fetch_ticker_data (Signal.ticker1 s) start_date end_date <> None /\
  fetch_ticker_data (Signal.ticker2 s) start_date end_date <> None.
Proof.
  rewrite scan_scores, in_flat_map. intros ([t1 t2] & Hp & Hs).
  apply emitted_spec in Hs as (a & Ha & _ & Hcase). cbn [fst snd] in *.
  assert (Ht : Signal.ticker1 s = t1 /\ Signal.ticker2 s = t2)
    by (destruct Hcase as [[_ ->]|(_ & _ & ->)]; split; reflexivity).
  destruct Ht as [-> ->]. split; [exact Hp|]. apply (aligned_of_data _ _ a Ha).
Qed.

(** X4.  The two tickers of every ranked signal are tickers of the input,
    the first at an earlier position of the list than the second, and the
    data source has data for both. *)
Theorem ranked_signals_have_data (tickers : list string) (s : Signal.t) :
  In s (pair_signals (run tickers)) ->
  (exists l1 l2 l3,
     tickers = l1 ++ Signal.ticker1 s :: l2 ++ Signal.ticker2 s :: l3) /\
  fetch_ticker_data (Signal.ticker1 s) start_date end_date <> None /\
  fetch_ticker_data (Signal.ticker2 s) start_date end_date <> None.
Proof.
  intros Hin. apply ranked_in in Hin.
  destruct (recorded_origin tickers s Hin) as (Hp & H1 & H2).
  split; [apply combinations_spec, Hp|]. split; assumption.
Qed.

Lemma long_of_ticker (s : Signal.t) :
  long_of s = Signal.ticker1 s \/ long_of s = Signal.ticker2 s.
Proof. unfold long_of. destruct (Signal.signal_type s); auto. Qed.

Lemma short_of_ticker (s : Signal.t) :
  short_of s = Signal.ticker1 s \/ short_of s = Signal.ticker2 s.
Proof. unfold short_of. destruct (Signal.signal_type s); auto. Qed.

Lemma recorded_ticker_known (tickers : list string) (s : Signal.t) (t : string) :
  In s (pair_scores (scan' tickers)) ->
  t = Signal.ticker1 s \/ t = Signal.ticker2 s ->
  In t tickers /\ fetch_ticker_data t start_date end_date <> None.
Proof.
  intros Hin Ht. destruct (recorded_origin tickers s Hin) as (Hp & H1 & H2).
  apply combinations_spec in Hp as (l1 & l2 & l3 & E).
  destruct Ht as [-> | ->]; (split; [|assumption]); rewrite E.
  - apply in_or_app. right. left. reflexivity.
  - apply in_or_app. right. right. apply in_or_app. right. left. reflexivity.
Qed.

(** X5.  Each tally holds, for every ticker, the number of ranked signals
    that recommend it: [longs] counts the signals that say to buy the
    ticker, [shorts] those that say to sell it (0 meaning the ticker is
    absent from the tally). *)
Theorem tallies_count_recommendations (tickers : list string) (t : string) :
  count_of t (longs (run tickers)) =
    count_occ string_dec (map long_of (pair_signals (run tickers))) t /\
  count_of t (shorts (run tickers)) =
    count_occ string_dec (map short_of (pair_signals (run tickers))) t.
Proof.
  pose proof (ranked_perm DataFrame date fetch_ticker_data weekly start_date end_date
                tickers) as Hp.
  unfold analyze_ticker_pairs in *. cbn [longs shorts pair_signals] in *.
  destruct (tally_spec (long_positions (scan' tickers))) as (_ & _ & _ & _ & HL).
  destruct (tally_spec (short_positions (scan' tickers))) as (_ & _ & _ & _ & HS).
  rewrite HL, HS, scan_longs, scan_shorts. split.
  - symmetry. apply Permutation_count_occ, Permutation_map, Hp.
  - symmetry. apply Permutation_count_occ, Permutation_map, Hp.
Qed.

(** X6.  Each tally lists a ticker at most once, every count is at least 1,
    and the entries are in order: larger counts first, and among equal
    counts the smaller ticker first. *)
Theorem tallies_sorted (tickers : list string) :
  (NoDup (map fst (longs (run tickers))) /\
   StronglySorted tally_before (longs (run tickers)) /\
   Forall (fun e => (1 <= snd e)%nat) (longs (run tickers))) /\
  (NoDup (map fst (shorts (run tickers))) /\
   StronglySorted tally_before (shorts (run tickers)) /\
   Forall (fun e => (1 <= snd e)%nat) (shorts (run tickers))).
Proof.
  unfold analyze_ticker_pairs. cbn [longs shorts].
  destruct (tally_spec (long_positions (scan' tickers))) as (L1 & L2 & L3 & _).
  destruct (tally_spec (short_positions (scan' tickers))) as (S1 & S2 & S3 & _).
  repeat split; assumption.
Qed.

Lemma tallies_known (tickers : list string) (t : string) :
  In t (map fst (longs (run tickers))) \/ In t (map fst (shorts (run tickers))) ->
  In t tickers /\ fetch_ticker_data t start_date end_date <> None.
Proof.
  unfold analyze_ticker_pairs. cbn [longs shorts].
  destruct (tally_spec (long_positions (scan' tickers))) as (_ & _ & _ & HL & _).
  destruct (tally_spec (short_positions (scan' tickers))) as (_ & _ & _ & HS & _).
  rewrite HL, HS, scan_longs, scan_shorts, !in_map_iff.
  intros [(s & <- & Hs)|(s & <- & Hs)]; apply (recorded_ticker_known tickers s); auto.
  - destruct (long_of_ticker s); auto.
  - destruct (short_of_ticker s); auto.
Qed.

(** X7.  Every ticker of a tally is a ticker of the input for which the data
    source has data. *)
Theorem tallies_name_known_tickers (tickers : list string) (t : string) :
  In t (map fst (longs (run tickers))) \/ In t (map fst (shorts (run tickers))) ->
  In t tickers /\ fetch_ticker_data t start_date end_date <> None.
Proof.
  unfold analyze_ticker_pairs. cbn [longs shorts].
  destruct (tally_spec (long_positions (scan' tickers))) as (_ & _ & _ & HL & _).
  destruct (tally_spec (short_positions (scan' tickers))) as (_ & _ & _ & HS & _).
  rewrite HL, HS, scan_longs, scan_shorts, !in_map_iff.
  intros [(s & <- & Hs)|(s & <- & Hs)]; apply (recorded_ticker_known tickers s); auto.
  - destruct (long_of_ticker s); auto.
  - destruct (short_of_ticker s); auto.
Qed.

End TallyFacts.

(* ================================================================== *)
(** * When the statistics are numbers, and what the score is then *)

Lemma sdev_nonneg (m : R) (l : list R) : 0 <= Series.sdev m m l l.
Proof.
  unfold Series.sdev. induction l as [|x r IH]; [simpl; lra|].
  cbn [combine map fst snd]. rewrite sum_cons.
  pose proof (Rle_0_sqr (x - m)) as Hx. unfold Rsqr in Hx. lra.
Qed.

Lemma sdev_zero (m : R) (l : list R) :
  Series.sdev m m l l = 0 -> Forall (fun x => x = m) l.
Proof.
  induction l as [|x r IH]; [constructor|].
  unfold Series.sdev. cbn [combine map fst snd]. rewrite sum_cons.
  fold (Series.sdev m m r r). intros H.
  pose proof (sdev_nonneg m r) as Hr.
  pose proof (Rle_0_sqr (x - m)) as Hx. unfold Rsqr in Hx.
  assert (Hx0 : (x - m) * (x - m) = 0) by lra.
  constructor.
  - apply Rmult_integral in Hx0. lra.
  - apply IH. lra.
Qed.

Lemma constant_all (l : list R) (v : R) :
  Forall (fun x => x = v) l -> constant l.
Proof.
  rewrite Forall_forall. intros H x y Hx Hy.
  rewrite (H x Hx), (H y Hy). reflexivity.
Qed.

Lemma var_nonneg (l : list R) : (2 <= length l)%nat -> 0 <= Series.var l.
Proof.
  intros Hlen. unfold Series.var. apply Rle_mult_inv_pos; [apply sdev_nonneg|].
  apply le_INR in Hlen. simpl in Hlen. lra.
Qed.

(** A variance of zero leaves no variation: every value is the mean. *)
Lemma var_zero_constant (l : list R) :
  (2 <= length l)%nat -> Series.var l = 0 -> constant l.
Proof.
  intros Hlen.
  assert (Hn : 0 < INR (length l) - 1)
    by (apply le_INR in Hlen; simpl in Hlen; lra).
  unfold Series.var. intros H.
  apply (constant_all l (Series.sum l / INR (length l))). apply sdev_zero.
  apply (Rmult_eq_compat_r (INR (length l) - 1)) in H.
  unfold Rdiv in H at 1. rewrite Rmult_assoc, Rinv_l, Rmult_1_r, Rmult_0_l in H by lra.
  exact H.
Qed.

Lemma std_zero_constant (l : list R) :
  (2 <= length l)%nat -> sqrt (Series.var l) = 0 -> constant l.
Proof.
  intros Hlen H. apply var_zero_constant; [exact Hlen|].
  apply sqrt_eq_0; [apply var_nonneg, Hlen|exact H].
Qed.

Lemma column1_length (a : frame) : length (column1 a) = length a.
Proof. apply length_map. Qed.

Lemma column2_length (a : frame) : length (column2 a) = length a.
Proof. apply length_map. Qed.

Lemma clip_nan (x : float) : Series.clip x = NaN <-> x = NaN.
Proof. destruct x; simpl; split; congruence. Qed.

Lemma fdiv_twice_nan (c sx sy : R) :
  fdiv (fdiv (Fin c) (Fin sx)) (Fin sy) = NaN <-> sx = 0 \/ sy = 0.
Proof.
  cbn [fdiv]. destruct (Reqb sx 0) eqn:Ex.
  - apply Reqb_true in Ex. split; auto.
  - apply Reqb_false in Ex. cbn [fdiv]. destruct (Reqb sy 0) eqn:Ey.
    + apply Reqb_true in Ey. split; auto.
    + apply Reqb_false in Ey. split; [discriminate|]. intros [H|H]; contradiction.
Qed.

Lemma correlation_short (a : frame) :
  (length a < 2)%nat -> correlation a = NaN.
Proof.
  intros Hlen. unfold correlation. rewrite column1_length.
  destruct (Nat.ltb_spec 1 (length a)) as [H|H]; [lia|reflexivity].
Qed.

(** A correlation that is NaN comes from a short frame or from a column
    without variation. *)
Lemma correlation_nan_constant (a : frame) :
  correlation a = NaN ->
  (length a < 2)%nat \/ constant (column1 a) \/ constant (column2 a).
Proof.
  unfold correlation. rewrite column1_length.
  destruct (Nat.ltb_spec 1 (length a)) as [Hlen|Hlen]; [|intros _; left; lia].
  unfold Series.corr. destruct (column1 a) as [|x xs] eqn:E.
  { apply (f_equal (@length R)) in E. rewrite column1_length in E. simpl in E. lia. }
  rewrite <- E. intros H. apply clip_nan, fdiv_twice_nan in H. right.
  destruct H as [H|H]; [left|right].
  - apply (std_zero_constant (column1 a)); [rewrite column1_length; lia|exact H].
  - apply (std_zero_constant (column2 a)); [rewrite column2_length; lia|exact H].
Qed.

Lemma total_score_nan (a : frame) :
  total_score a = NaN <->
  correlation a = NaN \/ mean_rev_prob a = NaN \/ z_score a = NaN.
Proof.
  unfold total_score.
  destruct (correlation a), (mean_rev_prob a), (z_score a); simpl;
    split; try tauto; try discriminate; intros [H|[H|H]]; discriminate.
Qed.

(** X8.  On a non-empty frame the z-score and the mean-reversion
    probability are NaN exactly when the frame has a single row.  The score
    of a single row is NaN, and a score that is NaN comes from a single row
    or from a column without variation. *)
Theorem score_undefined_cases (r0 : row) (rest : frame) :
  (z_score (r0 :: rest) = NaN <-> rest = []) /\
  (mean_rev_prob (r0 :: rest) = NaN <-> rest = []) /\
  (rest = [] -> total_score (r0 :: rest) = NaN) /\
  (total_score (r0 :: rest) = NaN ->
   rest = [] \/ constant (column1 (r0 :: rest)) \/ constant (column2 (r0 :: rest))).
Proof.
  assert (Hz : z_score (r0 :: rest) = NaN <-> rest = []).
  { split.
    - intros H. destruct rest as [|r1 rest]; [reflexivity|].
      destruct (z_score_fin (r0 :: r1 :: rest)) as [z Hz]; [simpl; lia|]. congruence.
    - intros ->. apply z_score_single. }
  assert (Hp : mean_rev_prob (r0 :: rest) = NaN <-> rest = []).
  { split.
    - intros H. destruct rest as [|r1 rest]; [reflexivity|].
      destruct (z_score_fin (r0 :: r1 :: rest)) as [z Hz']; [simpl; lia|].
      rewrite (mean_rev_prob_of_z _ z Hz') in H. discriminate.
    - intros ->. apply mean_rev_prob_single. }
  split; [exact Hz|]. split; [exact Hp|]. split.
  - intros ->. apply total_score_nan. right. right. apply z_score_single.
  - intros H. apply total_score_nan in H as [H|[H|H]].
    + apply correlation_nan_constant in H as [H|H]; [|right; exact H].
      left. destruct rest; [reflexivity|simpl in H; lia].
    + left. apply Hp, H.
    + left. apply Hz, H.
Qed.

Lemma correlation_range (a : frame) (c : R) :
  correlation a = Fin c -> -1 <= c <= 1.
Proof.
  unfold correlation. destruct (_ <? _)%nat; [|discriminate].
  unfold Series.corr. destruct (column1 a); [discriminate|].
  destruct (fdiv _ _) as [|q]; [discriminate|].
  cbn [Series.clip]. intros H. inversion H; subst. real_cases.
Qed.

(** X9.  The correlation of a frame with fewer than two rows is NaN; a
    correlation that is NaN comes from such a frame or from a column
    without variation; a correlation that is a number lies between -1
    and 1. *)
Theorem correlation_undefined_cases (a : frame) :
  ((length a < 2)%nat -> correlation a = NaN) /\
  (correlation a = NaN ->
   (length a < 2)%nat \/ constant (column1 a) \/ constant (column2 a)) /\
  (forall c, correlation a = Fin c -> -1 <= c <= 1).
Proof.
  split; [apply correlation_short|]. split; [apply correlation_nan_constant|].
  intros c Hc. apply (correlation_range a c Hc).
Qed.


(* ================================================================== *)
(** * Risk and reward against the thresholds *)

Lemma is_max_spec (r0 : row) (rest : frame) (h c : R) :
  highest (r0 :: rest) = Fin h -> current (r0 :: rest) = Fin c ->
  (is_max (r0 :: rest) = true <-> h - c <= 5 / 100 * Rabs h) /\
  (is_max (r0 :: rest) = false <-> 5 / 100 * Rabs h < h - c).
Proof.
  intros Hh Hc. unfold is_max. rewrite Hh, Hc. cbn [fsub fabs fmul].
  split; [apply fle_fin|apply fle_fin_false].
Qed.

Lemma is_min_spec (r0 : row) (rest : frame) (l c : R) :
  lowest (r0 :: rest) = Fin l -> current (r0 :: rest) = Fin c ->
  (is_min (r0 :: rest) = true <-> c - l <= 5 / 100 * Rabs l) /\
  (is_min (r0 :: rest) = false <-> 5 / 100 * Rabs l < c - l).
Proof.
  intros Hl Hc. unfold is_min. rewrite Hl, Hc. cbn [fsub fabs fmul].
  split; [apply fle_fin|apply fle_fin_false].
Qed.

Lemma record_within_threshold (t1 t2 : string) (a : frame) (s : Signal.t) :
  a <> [] ->
  (is_max a = true /\
   s = signal_of t1 t2 a MaxLevel
         (fsub (highest a) (current a)) (fsub (current a) (lowest a))) \/
  (is_max a = false /\ is_min a = true /\
   s = signal_of t1 t2 a MinLevel
         (fsub (current a) (lowest a)) (fsub (highest a) (current a))) ->
  within_threshold s.
Proof.
  intros Hne Hcase. destruct a as [|r0 rest]; [congruence|].
  destruct (extremes r0 rest) as (h & l & c & Hh & Hl & Hc & Hlc).
  destruct (is_max_spec r0 rest h c Hh Hc) as [Hmt Hmf].
  destruct (is_min_spec r0 rest l c Hl Hc) as [Hnt _].
  unfold within_threshold.
  destruct Hcase as [[Hm ->]|(Hm & Hn & ->)];
    cbn [signal_of Signal.spread Signal.risk Signal.reward Signal.signal_type];
    fold (highest (r0 :: rest)); fold (lowest (r0 :: rest));
    rewrite Hh, Hl, Hc; cbn [fsub].
  - exists h, l, (h - c), (c - l). repeat split. apply Hmt, Hm.
  - exists h, l, (c - l), (h - c). repeat split.
    + apply Hnt, Hn.
    + apply Hmf, Hm.
    + apply Hmf in Hm. pose proof (Rabs_pos h). lra.
Qed.

Section RiskFacts.
Variable DataFrame : Type.
Variable date : Type.
Variable fetch_ticker_data : string -> date -> date -> option DataFrame.
Variable weekly : DataFrame -> wseries.
Variables start_date end_date : date.

Local Abbreviation aligned_of' :=
  (aligned_of DataFrame date fetch_ticker_data weekly start_date end_date).
Local Abbreviation scan' :=
  (scan DataFrame date fetch_ticker_data weekly start_date end_date).
Local Abbreviation run :=
  (analyze_ticker_pairs DataFrame date fetch_ticker_data weekly start_date end_date).
Local Abbreviation emitted' :=
  (emitted DataFrame date fetch_ticker_data weekly start_date end_date).
Local Abbreviation raises' :=
  (Checked.raises DataFrame date fetch_ticker_data weekly start_date end_date).
Local Abbreviation crun :=
  (Checked.analyze_ticker_pairs DataFrame date fetch_ticker_data weekly
     start_date end_date).

(** X11.  For every ranked signal, the risk is within the threshold that
    triggered it: at most 5% of [|highest|] for a Max level signal, at most
    5% of [|lowest|] for a Min level signal.  A Min level signal moreover
    has a reward above 5% of [|highest|], hence a positive one. *)
Theorem risk_within_threshold (tickers : list string) (s : Signal.t) :
  In s (pair_signals (run tickers)) -> within_threshold s.
Proof.
  intros Hin. apply ranked_in in Hin. rewrite scan_scores, in_flat_map in Hin.
  destruct Hin as (p & _ & Hs). apply emitted_spec in Hs as (a & _ & Hne & Hcase).
  apply (record_within_threshold (fst p) (snd p) a s Hne Hcase).
Qed.

(** The pairs at which the loop raises. *)
Lemma raises_spec (p : string * string) :
  raises' p = true <->
  fst p = snd p /\
  exists data,
    fetch_ticker_data (fst p) start_date end_date = Some data /\
    align (weekly data) (weekly data) <> [].
Proof.
  destruct p as [t1 t2]. unfold Checked.raises, aligned_of. cbn [fst snd]. split.
  - destruct (fetch_ticker_data t1 start_date end_date) as [d1|] eqn:E1;
      [|discriminate].
    destruct (fetch_ticker_data t2 start_date end_date) as [d2|] eqn:E2;
      [|discriminate].
    destruct (align (weekly d1) (weekly d2)) as [|r0 rest] eqn:Ea; [discriminate|].
    intros H. apply String.eqb_eq in H. subst t2.
    rewrite E1 in E2. inversion E2; subst d2.
    split; [reflexivity|]. exists d1. split; [reflexivity|]. rewrite Ea. discriminate.
  - intros [<- (data & Hd & Hne)]. rewrite Hd.
    destruct (align (weekly data) (weekly data)); [congruence|].
    apply String.eqb_refl.
Qed.

(** X12.  The run raises [ValueError] and returns nothing exactly when some
    ticker is listed twice and has data with a value at some week: it is
    then paired with itself, and the frame of that pair has two columns of
    the same label. *)
Theorem ticker_listed_twice (tickers : list string) :
  crun tickers = None <->
  exists t data,
    (exists l1 l2 l3, tickers = l1 ++ t :: l2 ++ t :: l3) /\
    fetch_ticker_data t start_date end_date = Some data /\
    align (weekly data) (weekly data) <> [].
Proof.
  rewrite checked_run_spec.
  destruct (existsb raises' (combinations tickers)) eqn:E.
  - split; [intros _|reflexivity].
    apply existsb_exists in E as ([t1 t2] & Hp & Hr).
    apply raises_spec in Hr as [Heq (data & Hd & Hne)]. cbn [fst snd] in *.
    subst t2. exists t1, data.
    split; [apply combinations_spec, Hp|]. split; assumption.
  - split; [discriminate|]. intros (t & data & Hpos & Hd & Hne). exfalso.
    assert (Hr : existsb raises' (combinations tickers) = true).
    { apply existsb_exists. exists (t, t).
      split; [apply combinations_spec, Hpos|].
      apply raises_spec. split; [reflexivity|]. exists data. split; assumption. }
    congruence.
Qed.

(** X23.  A result that the run returns is the result of the loop that
    completes, which the other theorems are about; for distinct tickers the
    run does return. *)
Theorem returned_result (tickers : list string) :
  (forall r, crun tickers = Some r -> r = run tickers) /\
  (NoDup tickers -> crun tickers = Some (run tickers)).
Proof.
  split; [|apply distinct_returns].
  intros r. rewrite checked_run_spec.
  destruct (existsb raises' (combinations tickers)); [discriminate|].
  intros H. inversion H. reflexivity.
Qed.

End RiskFacts.

(* ================================================================== *)
(** * The aligned frame *)

(** X13.  For two dated weekly series, the aligned frame is dated, and it
    holds the row [(d, x, y)] exactly when the first series holds the
    number [x] and the second the number [y] at date [d]. *)
Theorem alignment_is_inner_join (s1 s2 : wseries) :
  dated s1 -> dated s2 ->
  dated (align s1 s2) /\
  forall d x y,
    In (d, (x, y)) (align s1 s2) <-> In (d, Fin x) s1 /\ In (d, Fin y) s2.
Proof.
  intros H1 H2. split; [apply align_dated, H1|].
  intros d x y. rewrite align_in. split; intros [Hx Hy]; (split; [exact Hx|]).
  - apply lookup_in, Hy.
  - apply in_lookup; assumption.
Qed.

(** X14.  For two dated weekly series, the frame of the pair taken in the
    other order is the frame with its two columns exchanged, so its spread
    is the negated spread. *)
Theorem alignment_symmetric (s1 s2 : wseries) :
  dated s1 -> dated s2 ->
  align s2 s1 = swap_columns (align s1 s2) /\
  spread (align s2 s1) = map Ropp (spread (align s1 s2)).
Proof.
  intros H1 H2.
  assert (E : align s2 s1 = swap_columns (align s1 s2)).
  { apply dated_ext.
    - apply align_dated, H2.
    - apply swap_columns_dated, align_dated, H1.
    - intros [d [y x]]. rewrite swap_columns_in, !align_in.
      split; intros [Hin Hl];
        (split; [apply lookup_in, Hl|apply in_lookup; assumption]). }
  split; [exact E|]. rewrite E. apply spread_swap.
Qed.

(* ================================================================== *)
(** * Downloads and prints of a run *)

Lemma downloads_app (a b : list effect) :
  downloads (a ++ b) = downloads a ++ downloads b.
Proof. unfold downloads. apply flat_map_app. Qed.

Lemma printed_app (a b : list effect) :
  printed (a ++ b) = printed a ++ printed b.
Proof. unfold printed. apply flat_map_app. Qed.

Lemma printed_flat_map {A} (f : A -> list effect) (l : list A) :
  printed (flat_map f l) = flat_map (fun x => printed (f x)) l.
Proof.
  induction l as [|x l IH]; [reflexivity|].
  cbn [flat_map]. rewrite printed_app, IH. reflexivity.
Qed.

Lemma flat_map_nil_iff {A B} (f : A -> list B) (l : list A) :
  flat_map f l = [] <-> forall x, In x l -> f x = [].
Proof.
  induction l as [|x l IH]; cbn [flat_map].
  - split; [intros _ ? []|reflexivity].
  - split.
    + intros H. apply app_eq_nil in H as [Hx Hl]. intros y [<-|Hy]; [exact Hx|].
      apply IH; assumption.
    + intros H. rewrite (H x (or_introl eq_refl)). apply IH.
      intros y Hy. apply H. right. exact Hy.
Qed.

Section TracedFacts.
Variable DataFrame : Type.
Variable date : Type.
Variable exn : Type.
Variable yf_download : string -> date -> date -> exn + DataFrame.
Variable empty : DataFrame -> bool.
Variable str : exn -> string.
Variable weekly : DataFrame -> wseries.
Variables start_date end_date : date.

Local Abbreviation fetch' := (Traced.fetch_ticker_data DataFrame date exn yf_download empty str).
Local Abbreviation fetched' := (Traced.fetched DataFrame date exn yf_download empty str).
Local Abbreviation tstep :=
  (Traced.step DataFrame date exn yf_download empty str weekly start_date end_date).
Local Abbreviation tscan :=
  (Traced.scan DataFrame date exn yf_download empty str weekly start_date end_date).
Local Abbreviation pure_step :=
  (step DataFrame date fetched' weekly start_date end_date).
Local Abbreviation pure_scan :=
  (scan DataFrame date fetched' weekly start_date end_date).
Local Abbreviation pure_aligned :=
  (aligned_of DataFrame date fetched' weekly start_date end_date).
Local Abbreviation pure_run :=
  (analyze_ticker_pairs DataFrame date fetched' weekly start_date end_date).
Local Abbreviation checked_step :=
  (Checked.step DataFrame date fetched' weekly start_date end_date).
Local Abbreviation checked_scan :=
  (Checked.scan DataFrame date fetched' weekly start_date end_date).
Local Abbreviation raises' :=
  (Checked.raises DataFrame date fetched' weekly start_date end_date).

Local Abbreviation pair_effects :=
  (Traced.pair_effects DataFrame date exn yf_download empty str weekly
     start_date end_date).

Lemma fetch_downloads (t : string) (s e : date) :
  downloads (snd (fetch' t s e)) = [t].
Proof.
  unfold Traced.fetch_ticker_data.
  destruct (yf_download t s e) as [x|data]; [reflexivity|].
  destruct (empty data); reflexivity.
Qed.

Lemma fetch_silent (t : string) (s e : date) :
  printed (snd (fetch' t s e)) = [] <-> fetched' t s e <> None.
Proof.
  unfold Traced.fetched, Traced.fetch_ticker_data, printed.
  destruct (yf_download t s e) as [x|data]; cbn [fst snd flat_map app].
  - split; [discriminate|congruence].
  - destruct (empty data); cbn [fst snd flat_map app]; split;
      try discriminate; congruence.
Qed.

Lemma step_state (acc : option state * list effect) (p : string * string) :
  fst (tstep acc p) = checked_step (fst acc) p.
Proof.
  unfold Traced.step, Checked.step, aligned_of, Traced.fetched.
  destruct acc as [[st|] tr]; cbn [fst snd]; [|reflexivity].
  destruct (fetch' (fst p) start_date end_date) as [[d1|] o1];
    destruct (fetch' (snd p) start_date end_date) as [[d2|] o2];
    cbn [fst snd]; try reflexivity.
  destruct (align (weekly d1) (weekly d2)); [reflexivity|].
  destruct (String.eqb (fst p) (snd p)); reflexivity.
Qed.

Lemma step_trace (st : state) (tr : list effect) (p : string * string) :
  snd (tstep (Some st, tr) p) = tr ++ pair_effects p.
Proof.
  unfold Traced.pair_effects, Traced.step. cbn [fst snd].
  destruct (fetch' (fst p) start_date end_date) as [[d1|] o1];
    destruct (fetch' (snd p) start_date end_date) as [[d2|] o2];
    cbn [fst snd app]; try reflexivity.
  destruct (align (weekly d1) (weekly d2)); [reflexivity|].
  destruct (String.eqb (fst p) (snd p)); reflexivity.
Qed.

(** The state of the loop with its effects is that of the loop without,
    whether or not it raises. *)
Lemma fold_state (l : list (string * string)) (acc : option state * list effect) :
  fst (fold_left tstep l acc) = fold_left checked_step l (fst acc).
Proof.
  revert acc. induction l as [|p l IH]; intros acc; [reflexivity|].
  cbn [fold_left]. rewrite IH, step_state. reflexivity.
Qed.

(** As long as no pair raises, the effects of the pairs follow one
    another. *)
Lemma fold_traced (l : list (string * string)) (st : state) (tr : list effect) :
  existsb raises' l = false ->
  fold_left tstep l (Some st, tr) =
  (Some (fold_left pure_step l st), tr ++ flat_map pair_effects l).
Proof.
  revert st tr. induction l as [|p l IH]; intros st tr; cbn [fold_left flat_map existsb].
  - intros _. rewrite app_nil_r. reflexivity.
  - intros H. apply orb_false_iff in H as [Hp Hl].
    rewrite (surjective_pairing (tstep (Some st, tr) p)).
    rewrite step_state, step_trace. cbn [fst].
    rewrite checked_step_spec, Hp, (IH _ _ Hl), app_assoc. reflexivity.
Qed.

Lemma pair_downloads (p : string * string) :
  downloads (pair_effects p) = [fst p; snd p].
Proof.
  unfold Traced.pair_effects, Traced.step. cbn [fst snd].
  pose proof (fetch_downloads (fst p) start_date end_date) as H1.
  pose proof (fetch_downloads (snd p) start_date end_date) as H2.
  destruct (fetch' (fst p) start_date end_date) as [[d1|] o1];
    destruct (fetch' (snd p) start_date end_date) as [[d2|] o2];
    cbn [fst snd app] in *; rewrite ?downloads_app, ?H1, ?H2; try reflexivity.
  destruct (align (weekly d1) (weekly d2));
    [|destruct (String.eqb (fst p) (snd p))]; cbn [snd app];
    rewrite ?downloads_app, H1, H2; reflexivity.
Qed.

Lemma pair_silent (p : string * string) :
  printed (pair_effects p) = [] <->
  exists a, pure_aligned (fst p) (snd p) = Some a /\ a <> [].
Proof.
  unfold Traced.pair_effects, Traced.step, aligned_of. cbn [fst snd].
  pose proof (fetch_silent (fst p) start_date end_date) as H1.
  pose proof (fetch_silent (snd p) start_date end_date) as H2.
  unfold Traced.fetched in *.
  destruct (fetch' (fst p) start_date end_date) as [[d1|] o1];
    destruct (fetch' (snd p) start_date end_date) as [[d2|] o2];
    cbn [fst snd app] in *.
  - destruct (align (weekly d1) (weekly d2)) as [|r0 rest] eqn:E.
    + cbn [snd]. rewrite !printed_app. split.
      * intros H. apply app_eq_nil in H as [_ H]. apply app_eq_nil in H as [_ H].
        discriminate.
      * intros (a & Ha & Hne). inversion Ha; subst. congruence.
    + assert (Hq : printed (o1 ++ o2) = []).
      { rewrite printed_app, (proj2 H1), (proj2 H2); [reflexivity| |]; discriminate. }
      split.
      * intros _. exists (r0 :: rest). split; [reflexivity|discriminate].
      * intros _. destruct (String.eqb (fst p) (snd p)); exact Hq.
  - rewrite printed_app. split.
    + intros H. apply app_eq_nil in H as [_ H]. apply H2 in H. congruence.
    + intros (a & Ha & _). discriminate.
  - rewrite printed_app. split.
    + intros H. apply app_eq_nil in H as [H _]. apply H1 in H. congruence.
    + intros (a & Ha & _). discriminate.
  - rewrite printed_app. split.
    + intros H. apply app_eq_nil in H as [H _]. apply H1 in H. congruence.
    + intros (a & Ha & _). discriminate.
Qed.

Lemma traced_distinct (tickers : list string) :
  NoDup tickers ->
  tscan tickers =
  (Some (pure_scan tickers), flat_map pair_effects (combinations tickers)).
Proof.
  intros Hnd. unfold Traced.scan, scan.
  rewrite fold_traced by (apply distinct_never_raises, Hnd). reflexivity.
Qed.

(** X15.  The accumulators of the loop with its downloads and prints are
    those of the loop without them: what a run computes does not depend on
    what it prints, and it raises when the other does.  For distinct
    tickers the loop completes, and its downloads and prints are, pair
    after pair, those of each pair on its own. *)
Theorem traced_scan_agrees (tickers : list string) :
  fst (tscan tickers) = checked_scan tickers /\
  (NoDup tickers ->
   fst (tscan tickers) = Some (pure_scan tickers) /\
   snd (tscan tickers) = flat_map pair_effects (combinations tickers)).
Proof.
  split.
  - unfold Traced.scan, Checked.scan. apply fold_state.
  - intros Hnd. rewrite (traced_distinct tickers Hnd). split; reflexivity.
Qed.

(** X16.  A run over distinct tickers downloads, in order, the first and
    then the second ticker of every combination, whether or not the first
    has data: [n (n - 1)] downloads for [n] tickers, each ticker once for
    every pair it is in. *)
Theorem downloads_per_run (tickers : list string) :
  NoDup tickers ->
  downloads (snd (tscan tickers)) =
    flat_map (fun p => [fst p; snd p]) (combinations tickers) /\
  length (downloads (snd (tscan tickers))) =
    (length tickers * (length tickers - 1))%nat.
Proof.
  intros Hnd. rewrite (traced_distinct tickers Hnd). cbn [snd]. clear Hnd.
  assert (E : downloads (flat_map pair_effects (combinations tickers)) =
              flat_map (fun p => [fst p; snd p]) (combinations tickers)).
  { induction (combinations tickers) as [|p l IH]; [reflexivity|].
    cbn [flat_map]. rewrite downloads_app, pair_downloads, IH. reflexivity. }
  split; [exact E|]. rewrite E, <- combinations_length. clear E.
  induction (combinations tickers) as [|p l IH]; [reflexivity|].
  cbn [flat_map app length]. rewrite IH. lia.
Qed.

(** X17.  A run over distinct tickers prints nothing exactly when every
    combination has data for both tickers and a non-empty aligned frame. *)
Theorem silent_run_iff (tickers : list string) :
  NoDup tickers ->
  (printed (snd (tscan tickers)) = [] <->
   forall t1 t2, In (t1, t2) (combinations tickers) ->
     exists a, pure_aligned t1 t2 = Some a /\ a <> []).
Proof.
  intros Hnd. rewrite (traced_distinct tickers Hnd). cbn [snd].
  rewrite printed_flat_map, flat_map_nil_iff. split.
  - intros Hall t1 t2 Hin. apply (pair_silent (t1, t2)), Hall, Hin.
  - intros Hall [t1 t2] Hin. apply pair_silent, Hall, Hin.
Qed.

(** X18.  A ticker whose download raises, or returns an empty frame, is in
    no ranked signal and in neither tally. *)
Theorem failed_download_not_recommended (tickers : list string) (t : string) :
  (forall data, yf_download t start_date end_date = inr data -> empty data = true) ->
  (forall s, In s (pair_signals (pure_run tickers)) ->
             Signal.ticker1 s <> t /\ Signal.ticker2 s <> t) /\
  ~ In t (map fst (longs (pure_run tickers))) /\
  ~ In t (map fst (shorts (pure_run tickers))).
Proof.
  intros Hfail.
  assert (Hnone : fetched' t start_date end_date = None).
  { unfold Traced.fetched, Traced.fetch_ticker_data.
    destruct (yf_download t start_date end_date) as [x|data] eqn:E; [reflexivity|].
    rewrite (Hfail data eq_refl). reflexivity. }
  split; [|split].
  - intros s Hin. apply ranked_in in Hin.
    destruct (recorded_origin _ _ _ _ _ _ tickers s Hin) as (_ & H1 & H2).
    split; intros E; subst t; contradiction.
  - intros Hin.
    destruct (tallies_known _ _ _ _ _ _ tickers t (or_introl Hin)) as [_ H].
    contradiction.
  - intros Hin.
    destruct (tallies_known _ _ _ _ _ _ tickers t (or_intror Hin)) as [_ H].
    contradiction.
Qed.

End TracedFacts.

(* ================================================================== *)
(** * The report *)

Lemma sorted_nil_iff {A} (lt : A -> A -> bool) (l : list A) :
  sorted lt l = [] <-> l = [].
Proof.
  split; [|intros ->; reflexivity]. intros H.
  apply Permutation_nil. rewrite <- H. apply sorted_perm.
Qed.

Lemma Counter_nil_iff (l : list string) : Counter l = [] <-> l = [].
Proof.
  split; [|intros ->; reflexivity]. intros H.
  pose proof (Counter_sum l) as Hs. rewrite H in Hs. simpl in Hs.
  destruct l; [reflexivity|discriminate].
Qed.

Section ReportFacts.
Variable DataFrame : Type.
Variable date : Type.
Variable fetch_ticker_data : string -> date -> date -> option DataFrame.
Variable weekly : DataFrame -> wseries.
Variables start_date end_date : date.
Variable message : Signal.t -> string.

Local Abbreviation scan' :=
  (scan DataFrame date fetch_ticker_data weekly start_date end_date).
Local Abbreviation run :=
  (analyze_ticker_pairs DataFrame date fetch_ticker_data weekly start_date end_date).
Local Abbreviation emitted' :=
  (emitted DataFrame date fetch_ticker_data weekly start_date end_date).

Lemma ranked_nil_iff (tickers : list string) :
  pair_signals (run tickers) = [] <-> pair_scores (scan' tickers) = [].
Proof.
  pose proof (ranked_perm DataFrame date fetch_ticker_data weekly start_date end_date
                tickers) as Hp.
  split; intros H; rewrite H in Hp.
  - apply Permutation_nil in Hp. exact Hp.
  - symmetry in Hp. apply Permutation_nil in Hp. exact Hp.
Qed.

Lemma tallies_nil_iff (tickers : list string) :
  (longs (run tickers) = [] <-> pair_signals (run tickers) = []) /\
  (shorts (run tickers) = [] <-> pair_signals (run tickers) = []).
Proof.
  rewrite ranked_nil_iff. unfold analyze_ticker_pairs. cbn [longs shorts].
  rewrite !sorted_nil_iff, !Counter_nil_iff.
  rewrite (scan_longs DataFrame date fetch_ticker_data weekly start_date end_date).
  rewrite (scan_shorts DataFrame date fetch_ticker_data weekly start_date end_date).
  split; (split; [apply map_eq_nil|intros ->; reflexivity]).
Qed.

(** X19.  The long tally is empty exactly when there is no ranked signal,
    and so is the short tally: the summary shows [None] under LONGS and
    under SHORTS together or not at all.  With no signal the summary is the
    fixed text with [None] twice. *)
Theorem tallies_empty_together (tickers : list string) :
  (longs (run tickers) = [] <-> pair_signals (run tickers) = []) /\
  (shorts (run tickers) = [] <-> pair_signals (run tickers) = []) /\
  (pair_signals (run tickers) = [] ->
   position_summary_text (run tickers) =
   (nl ++ rule ++ nl ++ "POSITION SUMMARY" ++ nl ++ rule ++ nl ++ nl
    ++ "LONGS:" ++ nl ++ "None" ++ nl ++ nl ++ "SHORTS:" ++ nl ++ "None" ++ nl)%string).
Proof.
  destruct (tallies_nil_iff tickers) as [HL HS].
  split; [exact HL|]. split; [exact HS|].
  intros H. unfold position_summary_text, position_summary.
  rewrite (proj2 HL H), (proj2 HS H). reflexivity.
Qed.

(** X20.  The report written to the file is the single line
    [No pair signals detected.] exactly when no signal was ranked, that is
    when no visited pair recorded one; otherwise it starts with the header
    and ends with the position summary. *)
Theorem report_without_signals_iff (tickers : list string) :
  (written message (run tickers) = ("No pair signals detected." ++ nl)%string <->
   pair_signals (run tickers) = []) /\
  (pair_signals (run tickers) = [] <->
   forall p, In p (combinations tickers) -> emitted' p = []) /\
  (pair_signals (run tickers) <> [] ->
   written message (run tickers) =
   ("PAIR TRADING SIGNALS (SORTED BY SCORE)" ++ nl ++ rule ++ nl ++ nl
    ++ String.concat "" (map message (pair_signals (run tickers)))
    ++ position_summary_text (run tickers))%string).
Proof.
  split; [|split].
  - unfold written, sorted_messages, report.
    destruct (pair_signals (run tickers)) as [|s l]; cbn [map].
    + split; reflexivity.
    + split; [|discriminate]. simpl. discriminate.
  - rewrite ranked_nil_iff.
    rewrite (scan_scores DataFrame date fetch_ticker_data weekly start_date end_date).
    apply flat_map_nil_iff.
  - intros Hne. unfold written, sorted_messages, report.
    destruct (pair_signals (run tickers)) as [|s l]; [congruence|reflexivity].
Qed.

End ReportFacts.

(* ================================================================== *)
(** * Reading the tickers *)

Module InputFacts.
Import Input.

Ltac all_chars c :=
  destruct c as [[|] [|] [|] [|] [|] [|] [|] [|]].

Lemma upper_char_idem (c : ascii) : upper_char (upper_char c) = upper_char c.
Proof. all_chars c; reflexivity. Qed.

Lemma upper_char_space (c : ascii) : is_space (upper_char c) = is_space c.
Proof. all_chars c; reflexivity. Qed.

Lemma upper_char_comma (c : ascii) : upper_char c = ","%char -> c = ","%char.
Proof. all_chars c; intros H; try reflexivity; discriminate H. Qed.

Lemma upper_idem (s : string) : upper (upper s) = upper s.
Proof.
  induction s as [|c r IH]; [reflexivity|].
  cbn [upper]. rewrite upper_char_idem, IH. reflexivity.
Qed.

Lemma upper_empty (s : string) : upper s = EmptyString <-> s = EmptyString.
Proof. destruct s; simpl; split; congruence. Qed.

Lemma upper_chars (s : string) (c : ascii) :
  In c (list_ascii_of_string (upper s)) ->
  exists c0, In c0 (list_ascii_of_string s) /\ c = upper_char c0.
Proof.
  induction s as [|a r IH]; cbn [upper list_ascii_of_string]; [intros []|].
  intros [<-|H].
  - exists a. split; [left; reflexivity|reflexivity].
  - destruct (IH H) as (c0 & H0 & E). exists c0. split; [right; exact H0|exact E].
Qed.

Lemma lstrip_upper (s : string) : lstrip (upper s) = upper (lstrip s).
Proof.
  induction s as [|c r IH]; [reflexivity|].
  cbn [upper lstrip]. rewrite upper_char_space.
  destruct (is_space c); [exact IH|reflexivity].
Qed.

Lemma rstrip_upper (s : string) : rstrip (upper s) = upper (rstrip s).
Proof.
  induction s as [|c r IH]; [reflexivity|].
  cbn [upper rstrip]. rewrite IH, upper_char_space.
  destruct (rstrip r) as [|c' r']; cbn [upper].
  - destruct (is_space c); reflexivity.
  - reflexivity.
Qed.

Lemma strip_upper (s : string) : strip (upper s) = upper (strip s).
Proof. unfold strip. rewrite lstrip_upper, rstrip_upper. reflexivity. Qed.

Lemma lstrip_head (s : string) : head_ok (lstrip s).
Proof.
  induction s as [|c r IH]; [exact I|].
  cbn [lstrip]. destruct (is_space c) eqn:E; [exact IH|exact E].
Qed.

Lemma lstrip_fixed (s : string) : head_ok s -> lstrip s = s.
Proof. destruct s as [|c r]; [reflexivity|]. simpl. intros ->. reflexivity. Qed.

Lemma rstrip_head (s : string) : head_ok s -> head_ok (rstrip s).
Proof.
  destruct s as [|c r]; [intros; exact I|]. cbn [head_ok rstrip]. intros H.
  destruct (rstrip r); [rewrite H|]; exact H.
Qed.

Lemma rstrip_idem (s : string) : rstrip (rstrip s) = rstrip s.
Proof.
  induction s as [|c r IH]; [reflexivity|].
  cbn [rstrip]. destruct (rstrip r) as [|c' r'] eqn:E.
  - destruct (is_space c) eqn:Ec; [reflexivity|].
    cbn [rstrip]. rewrite Ec. reflexivity.
  - change (rstrip (String c (String c' r')))
      with (match rstrip (String c' r') with
            | EmptyString => if is_space c then EmptyString else String c EmptyString
            | String c2 r2 => String c (String c2 r2)
            end).
    rewrite IH. reflexivity.
Qed.

Lemma strip_idem (s : string) : strip (strip s) = strip s.
Proof.
  unfold strip at 1.
  rewrite (lstrip_fixed (strip s)) by (apply rstrip_head, lstrip_head).
  apply rstrip_idem.
Qed.

Lemma lstrip_chars (s : string) (c : ascii) :
  In c (list_ascii_of_string (lstrip s)) -> In c (list_ascii_of_string s).
Proof.
  induction s as [|a r IH]; [intros []|].
  cbn [lstrip]. destruct (is_space a); [|auto].
  intros H. right. apply IH, H.
Qed.

Lemma rstrip_chars (s : string) (c : ascii) :
  In c (list_ascii_of_string (rstrip s)) -> In c (list_ascii_of_string s).
Proof.
  revert c. induction s as [|a r IH]; intros c; [intros []|].
  cbn [rstrip]. destruct (rstrip r) as [|c' r'].
  - destruct (is_space a); [intros []|].
    intros [<-|[]]. left. reflexivity.
  - cbn [list_ascii_of_string] in *. intros [<-|H]; [left; reflexivity|].
    right. apply IH, H.
Qed.

Lemma strip_chars (s : string) (c : ascii) :
  In c (list_ascii_of_string (strip s)) -> In c (list_ascii_of_string s).
Proof. intros H. apply lstrip_chars, rstrip_chars, H. Qed.

Lemma split_not_nil (sep : ascii) (s : string) : split sep s <> [].
Proof.
  induction s as [|c r IH]; [discriminate|].
  cbn [split]. destruct (Ascii.eqb c sep); [discriminate|].
  destruct (split sep r); discriminate.
Qed.

Lemma split_pieces (sep : ascii) (s t : string) :
  In t (split sep s) -> ~ In sep (list_ascii_of_string t).
Proof.
  revert t. induction s as [|c r IH]; intros t.
  - intros [<-|[]] [].
  - cbn [split]. destruct (Ascii.eqb_spec c sep) as [->|Hne].
    + intros [<-|H]; [intros []|apply IH, H].
    + destruct (split sep r) as [|h tl] eqn:E; [exfalso; apply (split_not_nil sep r E)|].
      intros [<-|H].
      * cbn [list_ascii_of_string]. intros [E'|E']; [congruence|].
        apply (IH h (or_introl eq_refl)), E'.
      * apply IH. right. exact H.
Qed.

Lemma split_plain (sep : ascii) (s : string) :
  ~ In sep (list_ascii_of_string s) -> split sep s = [s].
Proof.
  induction s as [|c r IH]; [reflexivity|].
  cbn [list_ascii_of_string split]. intros H.
  destruct (Ascii.eqb_spec c sep) as [->|Hne]; [exfalso; apply H; left; reflexivity|].
  rewrite IH; [reflexivity|]. intros H'. apply H. right. exact H'.
Qed.

Lemma split_append (sep : ascii) (s rest : string) :
  ~ In sep (list_ascii_of_string s) ->
  split sep (s ++ String sep rest) = s :: split sep rest.
Proof.
  induction s as [|c r IH]; cbn [list_ascii_of_string]; intros H.
  - cbn [append split]. rewrite Ascii.eqb_refl. reflexivity.
  - cbn [append split].
    destruct (Ascii.eqb_spec c sep) as [->|Hne]; [exfalso; apply H; left; reflexivity|].
    rewrite IH; [reflexivity|]. intros H'. apply H. right. exact H'.
Qed.

Lemma split_join (sep : ascii) (l : list string) :
  l <> [] ->
  Forall (fun t => ~ In sep (list_ascii_of_string t)) l ->
  split sep (String.concat (String sep EmptyString) l) = l.
Proof.
  intros Hne Hall. induction Hall as [|t r Ht Hr IH]; [congruence|].
  destruct r as [|t' r'].
  - cbn [String.concat]. apply split_plain, Ht.
  - change (String.concat (String sep EmptyString) (t :: t' :: r'))
      with (t ++ String sep EmptyString
              ++ String.concat (String sep EmptyString) (t' :: r'))%string.
    cbn [append]. rewrite split_append by exact Ht.
    rewrite IH by discriminate. reflexivity.
Qed.

(** X21.  Every ticker read from an ASCII input line is clean: it is not
    empty, holds no comma, has no white space at either end, and holds no
    lower-case letter; stripping or upper-casing it again changes
    nothing. *)
Theorem tickers_are_clean (tickers_input : string) :
  ascii_only tickers_input ->
  Forall clean (tickers_of tickers_input).
Proof.
  intros _. unfold tickers_of. rewrite Forall_map, Forall_forall.
  intros t Ht. apply filter_In in Ht as [Hin Hkeep].
  apply negb_true_iff in Hkeep.
  destruct (String.eqb_spec (strip t) EmptyString) as [E|Hne]; [discriminate|].
  unfold clean. repeat split.
  - rewrite upper_empty. exact Hne.
  - intros Hc. apply upper_chars in Hc as (c0 & Hc0 & E).
    symmetry in E. apply upper_char_comma in E. subst c0.
    apply strip_chars in Hc0. apply (split_pieces _ _ _ Hin), Hc0.
  - rewrite strip_upper, strip_idem. reflexivity.
  - apply upper_idem.
Qed.

(** X22.  Typing clean ASCII tickers separated by commas gives back exactly
    those tickers, in order. *)
Theorem clean_tickers_round_trip (l : list string) :
  Forall ascii_only l -> Forall clean l ->
  tickers_of (String.concat "," l) = l.
Proof.
  intros _ Hall. destruct l as [|t r]; [reflexivity|].
  unfold tickers_of. rewrite split_join.
  - assert (Hkeep : filter (fun t0 => negb (String.eqb (strip t0) EmptyString)) (t :: r)
                    = t :: r).
    { apply forallb_filter_id. apply forallb_forall. rewrite Forall_forall in Hall.
      intros x Hx. destruct (Hall x Hx) as (Hne & _ & Hs & _).
      rewrite Hs. apply negb_true_iff. apply String.eqb_neq. exact Hne. }
    rewrite Hkeep. rewrite <- (map_id (t :: r)) at 2.
    apply map_ext_in. rewrite Forall_forall in Hall.
    intros x Hx. destruct (Hall x Hx) as (_ & _ & Hs & Hu). rewrite Hs. exact Hu.
  - discriminate.
  - eapply Forall_impl; [|exact Hall]. intros x (_ & Hc & _). exact Hc.
Qed.

End InputFacts.

(* ================================================================== *)
(** * Instances on the example market *)

Lemma dated_Q : dated [(0%Z, Fin 9); (1%Z, Fin 3); (2%Z, Fin 5)].
Proof. unfold dated. cbn [map fst]. repeat constructor; lia. Qed.

Lemma dated_S : dated [(1%Z, Fin 1); (2%Z, Fin 2)].
Proof. unfold dated. cbn [map fst]. repeat constructor; lia. Qed.

Lemma QS_in_run :
  In (Example.max_signal "Q" "S" Example.frame_QS)
     (pair_signals (Example.run ["P"; "Q"; "S"]%string)).
Proof. rewrite run_PQS_signals. right. left. reflexivity. Qed.

Lemma S_in_longs :
  In "S"%string (map fst (longs (Example.run ["P"; "Q"; "S"]%string))).
Proof.
  unfold Example.run, analyze_ticker_pairs. cbn [longs].
  fold (Example.loop ["P"; "Q"; "S"]%string). rewrite loop_PQS.
  cbn [long_positions]. vm_compute. right. left. reflexivity.
Qed.

Lemma ranked_signals_characterised_witness :
  NoDup ["P"; "Q"; "S"]%string /\
  exists r,
    Checked.analyze_ticker_pairs wseries unit Example.market (fun d => d) tt tt
      ["P"; "Q"; "S"]%string = Some r /\
    (In (Example.max_signal "Q" "S" Example.frame_QS) (pair_signals r) <->
     exists t1 t2 a,
       In (t1, t2) (combinations ["P"; "Q"; "S"]%string) /\
       aligned_of wseries unit Example.market (fun d => d) tt tt t1 t2 = Some a /\
       a <> [] /\
       ((is_max a = true /\
         Example.max_signal "Q" "S" Example.frame_QS =
         signal_of t1 t2 a MaxLevel
           (fsub (highest a) (current a)) (fsub (current a) (lowest a))) \/
        (is_max a = false /\ is_min a = true /\
         Example.max_signal "Q" "S" Example.frame_QS =
         signal_of t1 t2 a MinLevel
           (fsub (current a) (lowest a)) (fsub (highest a) (current a))))).
Proof.
  split; [exact PQS_distinct|].
  exact (ranked_signals_characterised wseries unit Example.market (fun d => d) tt tt
           ["P"; "Q"; "S"]%string
           (Example.max_signal "Q" "S" Example.frame_QS) PQS_distinct).
Defined.

Lemma ranked_signals_have_data_witness :
  In (Example.max_signal "Q" "S" Example.frame_QS)
     (pair_signals (Example.run ["P"; "Q"; "S"]%string)) /\
  (exists l1 l2 l3, ["P"; "Q"; "S"]%string = l1 ++ "Q"%string :: l2 ++ "S"%string :: l3) /\
  Example.market "Q" tt tt <> None /\
  Example.market "S" tt tt <> None.
Proof.
  split; [exact QS_in_run|].
  exact (ranked_signals_have_data wseries unit Example.market (fun d => d) tt tt
           ["P"; "Q"; "S"]%string
           (Example.max_signal "Q" "S" Example.frame_QS) QS_in_run).
Defined.

Lemma tallies_name_known_tickers_witness :
  (In "S"%string (map fst (longs (Example.run ["P"; "Q"; "S"]%string))) \/
   In "S"%string (map fst (shorts (Example.run ["P"; "Q"; "S"]%string)))) /\
  In "S"%string ["P"; "Q"; "S"]%string /\ Example.market "S" tt tt <> None.
Proof.
  split; [left; exact S_in_longs|].
  exact (tallies_name_known_tickers wseries unit Example.market (fun d => d) tt tt
           ["P"; "Q"; "S"]%string "S"%string (or_introl S_in_longs)).
Defined.




Lemma risk_within_threshold_witness :
  In (Example.max_signal "Q" "S" Example.frame_QS)
     (pair_signals (Example.run ["P"; "Q"; "S"]%string)) /\
  within_threshold (Example.max_signal "Q" "S" Example.frame_QS).
Proof.
  split; [exact QS_in_run|].
  exact (risk_within_threshold wseries unit Example.market (fun d => d) tt tt
           ["P"; "Q"; "S"]%string
           (Example.max_signal "Q" "S" Example.frame_QS) QS_in_run).
Defined.

Lemma Q_listed_twice :
  exists t data,
    (exists l1 l2 l3, ["P"; "Q"; "Q"]%string = l1 ++ t :: l2 ++ t :: l3) /\
    Example.market t tt tt = Some data /\
    align data data <> [].
Proof.
  exists "Q"%string, [(0%Z, Fin 9); (1%Z, Fin 3); (2%Z, Fin 5)].
  split; [exists ["P"%string], [], []; reflexivity|].
  split; [reflexivity|]. vm_compute. discriminate.
Qed.

Lemma ticker_listed_twice_witness :
  Checked.analyze_ticker_pairs wseries unit Example.market (fun d => d) tt tt
    ["P"; "Q"; "Q"]%string = None.
Proof.
  exact (proj2 (ticker_listed_twice wseries unit Example.market (fun d => d) tt tt
                  ["P"; "Q"; "Q"]%string) Q_listed_twice).
Defined.

Lemma returned_result_witness :
  NoDup ["P"; "Q"; "S"]%string /\
  Checked.analyze_ticker_pairs wseries unit Example.market (fun d => d) tt tt
    ["P"; "Q"; "S"]%string = Some (Example.run ["P"; "Q"; "S"]%string).
Proof.
  split; [exact PQS_distinct|].
  exact (proj2 (returned_result wseries unit Example.market (fun d => d) tt tt
                  ["P"; "Q"; "S"]%string) PQS_distinct).
Defined.

Lemma alignment_is_inner_join_witness :
  dated [(0%Z, Fin 9); (1%Z, Fin 3); (2%Z, Fin 5)] /\
  dated [(1%Z, Fin 1); (2%Z, Fin 2)] /\
  dated (align [(0%Z, Fin 9); (1%Z, Fin 3); (2%Z, Fin 5)]
               [(1%Z, Fin 1); (2%Z, Fin 2)]) /\
  forall d x y,
    In (d, (x, y)) (align [(0%Z, Fin 9); (1%Z, Fin 3); (2%Z, Fin 5)]
                          [(1%Z, Fin 1); (2%Z, Fin 2)]) <->
    In (d, Fin x) [(0%Z, Fin 9); (1%Z, Fin 3); (2%Z, Fin 5)] /\
    In (d, Fin y) [(1%Z, Fin 1); (2%Z, Fin 2)].
Proof.
  split; [exact dated_Q|]. split; [exact dated_S|].
  exact (alignment_is_inner_join _ _ dated_Q dated_S).
Defined.

Lemma alignment_symmetric_witness :
  dated [(0%Z, Fin 9); (1%Z, Fin 3); (2%Z, Fin 5)] /\
  dated [(1%Z, Fin 1); (2%Z, Fin 2)] /\
  align [(1%Z, Fin 1); (2%Z, Fin 2)] [(0%Z, Fin 9); (1%Z, Fin 3); (2%Z, Fin 5)]
    = swap_columns Example.frame_QS /\
  spread (align [(1%Z, Fin 1); (2%Z, Fin 2)]
                [(0%Z, Fin 9); (1%Z, Fin 3); (2%Z, Fin 5)])
    = map Ropp (spread Example.frame_QS).
Proof.
  split; [exact dated_Q|]. split; [exact dated_S|].
  exact (alignment_symmetric _ _ dated_Q dated_S).
Defined.

Lemma traced_scan_agrees_witness :
  NoDup ["P"; "Q"; "S"]%string /\
  fst (Traced.scan wseries unit string ExampleIO.download ExampleIO.empty
         (fun e => e) (fun d => d) tt tt ["P"; "Q"; "S"]%string) =
    Some (scan wseries unit
            (Traced.fetched wseries unit string ExampleIO.download ExampleIO.empty
               (fun e => e))
            (fun d => d) tt tt ["P"; "Q"; "S"]%string) /\
  snd (Traced.scan wseries unit string ExampleIO.download ExampleIO.empty
         (fun e => e) (fun d => d) tt tt ["P"; "Q"; "S"]%string) =
    flat_map (Traced.pair_effects wseries unit string ExampleIO.download
                ExampleIO.empty (fun e => e) (fun d => d) tt tt)
             (combinations ["P"; "Q"; "S"]%string).
Proof.
  split; [exact PQS_distinct|].
  exact (proj2 (traced_scan_agrees wseries unit string ExampleIO.download
                  ExampleIO.empty (fun e => e) (fun d => d) tt tt
                  ["P"; "Q"; "S"]%string) PQS_distinct).
Defined.

Lemma downloads_per_run_witness :
  NoDup ["P"; "Q"; "S"]%string /\
  downloads (snd (Traced.scan wseries unit string ExampleIO.download
                    ExampleIO.empty (fun e => e) (fun d => d) tt tt
                    ["P"; "Q"; "S"]%string)) =
    flat_map (fun p => [fst p; snd p]) (combinations ["P"; "Q"; "S"]%string) /\
  length (downloads (snd (Traced.scan wseries unit string ExampleIO.download
                            ExampleIO.empty (fun e => e) (fun d => d) tt tt
                            ["P"; "Q"; "S"]%string))) =
    (length ["P"; "Q"; "S"]%string * (length ["P"; "Q"; "S"]%string - 1))%nat.
Proof.
  split; [exact PQS_distinct|].
  exact (downloads_per_run wseries unit string ExampleIO.download ExampleIO.empty
           (fun e => e) (fun d => d) tt tt ["P"; "Q"; "S"]%string PQS_distinct).
Defined.

Lemma silent_run_iff_witness :
  NoDup ["P"; "Q"; "S"]%string /\
  (printed (snd (Traced.scan wseries unit string ExampleIO.download
                   ExampleIO.empty (fun e => e) (fun d => d) tt tt
                   ["P"; "Q"; "S"]%string)) = [] <->
   forall t1 t2, In (t1, t2) (combinations ["P"; "Q"; "S"]%string) ->
     exists a,
       aligned_of wseries unit
         (Traced.fetched wseries unit string ExampleIO.download ExampleIO.empty
            (fun e => e))
         (fun d => d) tt tt t1 t2 = Some a /\ a <> []).
Proof.
  split; [exact PQS_distinct|].
  exact (silent_run_iff wseries unit string ExampleIO.download ExampleIO.empty
           (fun e => e) (fun d => d) tt tt ["P"; "Q"; "S"]%string PQS_distinct).
Defined.

Lemma E_has_no_data (data : wseries) :
  ExampleIO.download "E" tt tt = inr data -> ExampleIO.empty data = true.
Proof. intros H. injection H as <-. reflexivity. Qed.

Lemma failed_download_not_recommended_witness :
  (forall data, ExampleIO.download "E" tt tt = inr data ->
                ExampleIO.empty data = true) /\
  (forall s, In s (pair_signals (ExampleIO.run ["P"; "E"; "Q"; "S"]%string)) ->
             Signal.ticker1 s <> "E"%string /\ Signal.ticker2 s <> "E"%string) /\
  ~ In "E"%string (map fst (longs (ExampleIO.run ["P"; "E"; "Q"; "S"]%string))) /\
  ~ In "E"%string (map fst (shorts (ExampleIO.run ["P"; "E"; "Q"; "S"]%string))).
Proof.
  split; [exact E_has_no_data|].
  exact (failed_download_not_recommended wseries unit string ExampleIO.download
           ExampleIO.empty (fun e => e) (fun d => d) tt tt
           ["P"; "E"; "Q"; "S"]%string "E"%string E_has_no_data).
Defined.

Ltac ascii_string :=
  unfold Input.ascii_only; cbn [list_ascii_of_string];
  repeat (apply Forall_cons; [vm_compute; lia|]); apply Forall_nil.

Ltac clean_string :=
  unfold Input.clean; split; [discriminate|];
  split; [cbn [list_ascii_of_string In]; intuition discriminate|];
  split; reflexivity.

Lemma typed_line_ascii : Input.ascii_only "aapl, msft ,,x".
Proof. ascii_string. Qed.

Lemma tickers_are_clean_witness :
  Input.ascii_only "aapl, msft ,,x" /\
  Forall Input.clean (Input.tickers_of "aapl, msft ,,x").
Proof.
  split; [exact typed_line_ascii|].
  exact (InputFacts.tickers_are_clean "aapl, msft ,,x" typed_line_ascii).
Defined.

Lemma two_tickers_ascii : Forall Input.ascii_only ["AAPL"; "MSFT-A"]%string.
Proof. repeat (apply Forall_cons; [ascii_string|]). apply Forall_nil. Qed.

Lemma two_tickers_clean : Forall Input.clean ["AAPL"; "MSFT-A"]%string.
Proof. repeat (apply Forall_cons; [clean_string|]). apply Forall_nil. Qed.

Lemma clean_tickers_round_trip_witness :
  Forall Input.ascii_only ["AAPL"; "MSFT-A"]%string /\
  Forall Input.clean ["AAPL"; "MSFT-A"]%string /\
  Input.tickers_of "AAPL,MSFT-A" = ["AAPL"; "MSFT-A"]%string.
Proof.
  split; [exact two_tickers_ascii|]. split; [exact two_tickers_clean|].
  exact (InputFacts.clean_tickers_round_trip ["AAPL"; "MSFT-A"]%string
           two_tickers_ascii two_tickers_clean).
Defined.

(* ================================================================== *)
(** * Risk and reward on binary64 *)

Module Binary64Facts.
Import PrimFloat.
Local Open Scope float_scope.

(** The spread of [Binary64.prices] is 86.14, -14.350000000000001, 83.31:
    the last value is within 5% of the highest, a Max level signal is
    recorded with risk 2.8299999999999983 and reward 97.66.  Their sum is
    100.49, and [highest - lowest] is 100.49000000000001. *)
Lemma risk_plus_reward_rounds :
  Binary64.spread Binary64.prices =
    [0x1.588f5c28f5c29p+6; -0x1.cb33333333334p+3; 0x1.4d3d70a3d70a4p+6] /\
  Binary64.recorded Binary64.prices =
    Some (MaxLevel, (0x1.6a3d70a3d70ap+1, 0x1.86a3d70a3d70ap+6)) /\
  0x1.6a3d70a3d70ap+1 + 0x1.86a3d70a3d70ap+6 = 0x1.91f5c28f5c28fp+6 /\
  Binary64.highest Binary64.prices - Binary64.lowest Binary64.prices =
    0x1.91f5c28f5c29p+6 /\
  (0x1.91f5c28f5c28fp+6 =? 0x1.91f5c28f5c29p+6) = false.
Proof. repeat split; vm_compute; reflexivity. Qed.

End Binary64Facts.
